(** * tef-synth-animation: the Eyes and MatrixString animation elements

    A shallow embedding of [STM32F4/Eyes.cpp] and [STM32F4/MatrixString.cpp]
    and the properties their specification states about them.

    Conventions of the embedding.

    - A C++ [float] is an exact rational ([Q]): the arithmetic of the code is
      kept expression by expression, but rounding, NaN and infinities are not
      modelled.  Equalities between computed numbers are stated with [==]
      ([Qeq]); [=] is used where the code hands a value on untouched.
      A rounded sum can fall on the other side of a threshold than the exact
      one: the statements that say which templates [add_shapes] drops are
      therefore made for weights whose sum is the same rounded or not, or
      lies well away from the threshold, and the statement on the scroll
      step leaves open on which side of the matrix edge the end of the text
      falls.
    - [floorf], [ceilf] and [roundf] return integral values: they are given
      the type [Z], which also stands for the [int] they are converted to
      (a value that does not fit an [int] has no defined conversion in C++
      and is kept as it is here).
    - An [eye_shape] ([std::array<float, 22>]) is a [list float]; indexing is
      checked, and an access outside the array is the error [None] of the
      option monad, so that "no out-of-bounds access" is a statement.
    - The LED matrix is an external collaborator: a draw routine yields the
      ordered list of [set_colour] calls it makes.
    - The colour type ([tef/led/Colour.h]), the shape templates and the
      [eye_shape] type ([Animation/Eyes.h]) are not part of the sources at
      hand; they enter as the interfaces [LEDColour] and [EyeTemplates]. *)

From Stdlib Require Import ZArith QArith Qround Qabs Lqa Lia String.
From stdpp Require Import base list option.

Open Scope Q_scope.

(** ** Scalar arithmetic *)

Abbreviation float := Q.

(** [a < b], [a > b] and [a >= b] on floats, as the booleans the code
    branches on. *)
Definition flt_lt (a b : float) : bool := negb (Qle_bool b a).
Definition flt_gt (a b : float) : bool := flt_lt b a.
Definition flt_ge (a b : float) : bool := Qle_bool b a.

(** [std::max(a, b)] is [(a < b) ? b : a]. *)
Definition std_max (a b : float) : float := if flt_lt a b then b else a.

Definition fabsf (x : float) : float := Qabs x.

(** Rounding toward zero. *)
Definition truncf (x : float) : Z := Z.quot (Qnum x) (Zpos (Qden x)).

(** [fmodf x y = x - y * trunc (x / y)]: the remainder has the sign of [x]. *)
Definition fmodf (x y : float) : float := x - y * inject_Z (truncf (x / y)).

Definition floorf (x : float) : Z := Qfloor x.
Definition ceilf (x : float) : Z := Qceiling x.

(** [roundf] rounds to the nearest integer, halfway cases away from zero. *)
Definition roundf (x : float) : Z :=
  if Qle_bool 0 x then Qfloor (x + 0.5) else Qceiling (x - 0.5).

(** ** Loops over checked arrays *)

(** The indices visited by [for (i = start; i < stop; i += step)]. *)
Definition loop_indices (start stop step : nat) : list nat :=
  (λ k, start + k * step)%nat <$> seq 0 (Nat.div (stop - start + (step - 1)) step).

(** The values visited by [for (int y = lo; y < hi; y++)]. *)
Definition int_range (lo hi : Z) : list Z :=
  (λ k, lo + Z.of_nat k)%Z <$> seq 0 (Z.to_nat (hi - lo)).

(** Runs [body] for each index in turn, threading the state; the first
    failing iteration fails the loop. *)
Fixpoint for_each {S : Type} (idx : list nat) (body : nat → S → option S) (s : S)
  : option S :=
  match idx with
  | [] => Some s
  | i :: rest => s' ← body i s; for_each rest body s'
  end.

(** ** Eye shapes *)

(** Modelled from the spec: the type [eye_shape] of [Animation/Eyes.h], "an
    ordered sequence of 22 floats = 11 columns × (top boundary, bottom
    boundary)"; the code indexes it, takes its [size()] and initialises it
    with 22 values. *)
Abbreviation eye_shape := (list float).

Definition EYE_SHAPE_SIZE : nat := 22.

(** [source[i] = v]: [None] when [i] is outside the array. *)
Definition store (source : eye_shape) (i : nat) (v : float) : option eye_shape :=
  if decide (i < length source)%nat then Some (<[i:=v]> source) else None.

(** The body of the loop of [add_shapes] at index [i] (Eyes.cpp:61). *)
Definition add_entry (to_add : eye_shape) (fact : float) (i : nat) (source : eye_shape)
  : option eye_shape :=
  a ← source !! i;
  b ← to_add !! i;
  store source i (a + b * fact).

(** [add_shapes] (Eyes.cpp:56). *)
Definition add_shapes (source to_add : eye_shape) (fact : float) : option eye_shape :=
  if flt_lt fact 0.1 then Some source
  else for_each (loop_indices 0 (length source) 1) (add_entry to_add fact) source.

(** ** External interfaces *)

(** The part of [LED::Colour] the two elements use: brightness modulation,
    the alpha channel, and the conversion from a packed RGB integer. *)
Class LEDColour (Colour : Type) := {
  bMod : Colour → float → Colour;
  alpha : Colour → float;
  colour_of_rgb : Z → Colour;
  PINK : Colour
}.

(** The shape templates declared in [Animation/Eyes.h]. *)
Class EyeTemplates := {
  relaxed_eye : eye_shape;
  angry_eye : eye_shape;
  happy_eye : eye_shape;
  heart_eye : eye_shape;
  surprised_eye : eye_shape;
  shy_eye : eye_shape
}.

(** One call [matrix.set_colour(x, y, colour)]. *)
Definition set_colour_call (Colour : Type) : Type := (Z * Z * Colour)%type.

(** The rows of a list of calls. *)
Definition rows {Colour : Type} (calls : list (set_colour_call Colour)) : list Z :=
  (λ call, snd (fst call)) <$> calls.

(** The sum of a list of floats. *)
Definition Qsum (l : list float) : float := foldr Qplus 0 l.

(** ** The Eyes element (Eyes.cpp) *)

Module Eyes.

(** [eye_shape_def]: a template and its live weight.  The template is
    pointed to and never written, so the record holds its value. *)
Record eye_shape_def := {
  shape : eye_shape;
  expressiveness : float
}.

(** The data members of [Eyes] (the matrix and the server are references to
    collaborators and are passed to the operations instead). *)
Record t (Colour : Type) := {
  offset : Z;
  outer_color : Colour;
  inner_color : Colour;
  blush_colour : Colour;
  iris_x : float;
  emotions : list eye_shape_def
}.

Arguments offset {Colour} _.
Arguments outer_color {Colour} _.
Arguments inner_color {Colour} _.
Arguments blush_colour {Colour} _.
Arguments iris_x {Colour} _.
Arguments emotions {Colour} _.

(** The float and colour members that [get_flt] and [get_color] can point
    to; [None] stands for [nullptr]. *)
Inductive flt_ref :=
  | expressiveness_of (i : nat)
  | iris_x_ref.

Inductive colour_ref :=
  | outer_color_ref
  | inner_color_ref
  | blush_colour_ref.

Section WithColour.
Context {Colour : Type} `{LEDColour Colour} `{EyeTemplates}.

(** [Eyes::Eyes] (Eyes.cpp:16). *)
Definition new : t Colour := {|
  offset := 30;
  outer_color := colour_of_rgb 0x9900AA;
  inner_color := colour_of_rgb 0;
  blush_colour := PINK;
  iris_x := 3;
  emotions := [ {| shape := angry_eye; expressiveness := 0 |};
                {| shape := happy_eye; expressiveness := 0 |};
                {| shape := heart_eye; expressiveness := 0 |};
                {| shape := surprised_eye; expressiveness := 0 |};
                {| shape := shy_eye; expressiveness := 0 |} ]
|}.

(** [Eyes::get_flt] (Eyes.cpp:32).  [val] is an [animation_value_id_t], a
    16-bit unsigned integer; [val - 0x100] is computed in [int]. *)
Definition get_flt (e : t Colour) (val : Z) : option flt_ref :=
  let val := (val mod 2 ^ 16)%Z in
  if ((val - 0x100 >=? 0) && (val - 0x100 <? Z.of_nat (length (emotions e))))%Z
  then Some (expressiveness_of (Z.to_nat (val - 0x100)))
  else
    match val with
    | 0x000%Z => Some iris_x_ref
    | _ => None
    end.

(** [Eyes::get_color] (Eyes.cpp:43).  The parameter is a [uint8_t]: an
    argument is reduced modulo 256 when it is passed. *)
Definition get_color (val : Z) : option colour_ref :=
  match (val mod 2 ^ 8)%Z with
  | 0%Z => Some outer_color_ref
  | 1%Z => Some inner_color_ref
  | 2%Z => Some blush_colour_ref
  | _ => None
  end.

(** What the returned pointers point to. *)
Definition read_flt (e : t Colour) (r : flt_ref) : option float :=
  match r with
  | expressiveness_of i => expressiveness <$> emotions e !! i
  | iris_x_ref => Some (iris_x e)
  end.

Definition read_colour (e : t Colour) (r : colour_ref) : Colour :=
  match r with
  | outer_color_ref => outer_color e
  | inner_color_ref => inner_color e
  | blush_colour_ref => blush_colour e
  end.

(** A write through a pointer returned by [get_color]. *)
Definition write_colour (e : t Colour) (r : colour_ref) (c : Colour) : t Colour :=
  match r with
  | outer_color_ref =>
      {| offset := offset e; outer_color := c; inner_color := inner_color e;
         blush_colour := blush_colour e; iris_x := iris_x e; emotions := emotions e |}
  | inner_color_ref =>
      {| offset := offset e; outer_color := outer_color e; inner_color := c;
         blush_colour := blush_colour e; iris_x := iris_x e; emotions := emotions e |}
  | blush_colour_ref =>
      {| offset := offset e; outer_color := outer_color e; inner_color := inner_color e;
         blush_colour := c; iris_x := iris_x e; emotions := emotions e |}
  end.

(** The body of the column loop of [draw_total_eye] at index [i]: the
    [set_colour] calls it makes, or none when the column is skipped. *)
Definition draw_column (e : t Colour) (total_eye : eye_shape) (i : nat)
  : option (list (set_colour_call Colour)) :=
  top ← total_eye !! i;
  bottom ← total_eye !! (i + 1)%nat;
  if flt_ge top bottom then Some []
  else
    let x := Z.of_nat (i / 2 + 18) in
    let o_c := outer_color e in
    Some (((λ y, (x, (y + 1)%Z, outer_color e)) <$> int_range (ceilf top) (floorf bottom))
          ++ [ (x, (floorf top + 1)%Z, bMod o_c (1 - fmodf top 1));
               (x, (floorf bottom + 1)%Z, bMod o_c (fmodf bottom 1)) ]).

(** [Eyes::draw_total_eye] (Eyes.cpp:64). *)
Definition draw_total_eye (e : t Colour) (total_eye : eye_shape)
  : option (list (set_colour_call Colour)) :=
  for_each (loop_indices 0 (length total_eye) 2)
    (λ i drawn, column ← draw_column e total_eye i; Some (drawn ++ column))
    [].

(** The blink factor of [calculate_blink] (Eyes.cpp:81) at the server's
    synchronised time. *)
Definition eye_close_factor (synch_time : float) : float :=
  1.3 - fabsf (fmodf synch_time 10 - 5) * 15.

(** The body of the column loop of [calculate_blink] at index [i]
    (Eyes.cpp:91-92): the second statement reads [total_eye[i]] after the
    first has written it. *)
Definition blink_column
    (top_fact_top top_fact_bottom bottom_fact_top bottom_fact_bottom : float)
    (i : nat) (total_eye : eye_shape) : option eye_shape :=
  a ← total_eye !! i;
  b ← total_eye !! (i + 1)%nat;
  total_eye ← store total_eye i (a * top_fact_top + b * top_fact_bottom);
  a ← total_eye !! i;
  b ← total_eye !! (i + 1)%nat;
  store total_eye (i + 1) (a * bottom_fact_top + b * bottom_fact_bottom).

(** [Eyes::calculate_blink] (Eyes.cpp:80); [synch_time] is the value of
    [server.get_synch_time()]. *)
Definition calculate_blink (synch_time : float) (total_eye : eye_shape)
  : option eye_shape :=
  let eye_close_factor := eye_close_factor synch_time in
  if flt_gt eye_close_factor 0 then
    let top_fact_top := 1 - 0.7 * eye_close_factor in
    let top_fact_bottom := 0.7 * eye_close_factor in
    let bottom_fact_top := 0.3 * eye_close_factor in
    let bottom_fact_bottom := 1 - 0.7 * eye_close_factor in
    for_each (loop_indices 0 (length total_eye) 2)
      (blink_column top_fact_top top_fact_bottom bottom_fact_top bottom_fact_bottom)
      total_eye
  else Some total_eye.

(** [Eyes::draw_blush] (Eyes.cpp:97). *)
Definition draw_blush (e : t Colour) : list (set_colour_call Colour) :=
  if flt_lt (alpha (blush_colour e)) 0.1 then []
  else
    y ← int_range 0 3;
    x ← int_range 0 5;
    [ ((3 * x - y + 17)%Z, (y + 9)%Z, blush_colour e) ].

(** The templates the element blends have the size of an [eye_shape]. *)
Definition templates_sized (e : t Colour) : Prop :=
  length relaxed_eye = EYE_SHAPE_SIZE
  ∧ ∀ shape, shape ∈ emotions e → length (Eyes.shape shape) = EYE_SHAPE_SIZE.

(** The first shape of [Eyes::tick] (Eyes.cpp:112). *)
Definition closed_eye : eye_shape :=
  [ 0.01; -0.01; 0.1; -0.1; 0.1; -0.1; 0.1; -0.1; 0.1; -0.1; 0.1; -0.1;
    0.1; -0.1; 0.1; -0.1; 0.1; -0.1; 0.1; -0.1; 0.1; -0.1 ].

(** [expression_sum] after the first loop of [tick] (Eyes.cpp:114-116). *)
Definition expression_sum (e : t Colour) : float :=
  fold_left (λ expression_sum shape, expression_sum + std_max (expressiveness shape) 0)
    (emotions e) 0.

(** The factors [tick] hands to [add_shapes]: for the relaxed template
    (Eyes.cpp:118) and for one emotion (Eyes.cpp:120-123). *)
Definition relaxed_fact (e : t Colour) : float :=
  std_max 0 (1 - expression_sum e).

Definition emotion_fact (e : t Colour) (shape : eye_shape_def) : float :=
  let expression_sum := std_max (expression_sum e) 1 in
  expressiveness shape / expression_sum.

(** The second loop of [tick] (Eyes.cpp:122-124). *)
Fixpoint add_emotions (e : t Colour) (shapes : list eye_shape_def) (total_eye : eye_shape)
  : option eye_shape :=
  match shapes with
  | [] => Some total_eye
  | shape0 :: rest =>
      total_eye ← add_shapes total_eye (shape shape0) (emotion_fact e shape0);
      add_emotions e rest total_eye
  end.

(** Eyes.cpp:112-124: the blend of the templates. *)
Definition blend (e : t Colour) : option eye_shape :=
  total_eye ← add_shapes closed_eye relaxed_eye (relaxed_fact e);
  add_emotions e (emotions e) total_eye.

(** The factor by which [add_shapes] scales [to_add] when it is called with
    [fact]: nothing is added below 0.1 (Eyes.cpp:57). *)
Definition applied_fact (fact : float) : float :=
  if flt_lt fact 0.1 then 0 else fact.

(** Eyes.cpp:128-131: the iris notch. *)
Definition clip_iris (iris_x : float) (total_eye : eye_shape) : option eye_shape :=
  let rounded_iris := roundf iris_x in
  if ((rounded_iris >=? 0) && (rounded_iris <=? Z.of_nat (length total_eye / 2) - 1))%Z
  then
    let col := Z.to_nat rounded_iris in
    a ← total_eye !! (col * 2)%nat;
    b ← total_eye !! (col * 2 + 1)%nat;
    store total_eye (col * 2) (std_max a (b - 0.1))
  else Some total_eye.

(** The shape [tick] hands to [draw_total_eye] (Eyes.cpp:112-131). *)
Definition final_shape (synch_time : float) (e : t Colour) : option eye_shape :=
  total_eye ← blend e;
  total_eye ← calculate_blink synch_time total_eye;
  clip_iris (iris_x e) total_eye.

(** [Eyes::tick] (Eyes.cpp:108): the element after the call and the
    [set_colour] calls made on the target matrix, in order. *)
Definition tick (synch_time : float) (delta_t : float) (e : t Colour)
  : option (t Colour * list (set_colour_call Colour)) :=
  total_eye ← final_shape synch_time e;
  eye ← draw_total_eye e total_eye;
  Some (e, eye ++ draw_blush e).

End WithColour.
End Eyes.

(** ** The MatrixString element (MatrixString.cpp) *)

Module MatrixString.

(** The data members of [MatrixString] (MatrixString.h:23-27). *)
Record t (Colour : Type) := {
  current_str : string;
  pos_x : float;
  pos_y : float;
  alignment : float;
  scroll_speed : float;
  print_colour : Colour
}.

Arguments current_str {Colour} _.
Arguments pos_x {Colour} _.
Arguments pos_y {Colour} _.
Arguments alignment {Colour} _.
Arguments scroll_speed {Colour} _.
Arguments print_colour {Colour} _.

(** One call [matrix.draw_string(str, console_font, x, y, 6, 8, colour)]. *)
Record draw_string_call (Colour : Type) := {
  text : string;
  text_x : float;
  text_y : float;
  glyph_width : Z;
  glyph_height : Z;
  text_colour : Colour
}.

Arguments text {Colour} _.
Arguments text_x {Colour} _.
Arguments text_y {Colour} _.
Arguments glyph_width {Colour} _.
Arguments glyph_height {Colour} _.
Arguments text_colour {Colour} _.

(** The members that [get_flt] and [get_color] can point to; [None] stands
    for [nullptr]. *)
Inductive flt_ref :=
  | pos_x_ref
  | pos_y_ref
  | alignment_ref
  | scroll_speed_ref.

Inductive colour_ref :=
  | print_colour_ref.

(** [MatrixString::get_flt] (MatrixString.cpp:29); [val] is a 16-bit
    [animation_value_id_t]. *)
Definition get_flt (val : Z) : option flt_ref :=
  match (val mod 2 ^ 16)%Z with
  | 1%Z => Some pos_x_ref
  | 2%Z => Some pos_y_ref
  | 3%Z => Some alignment_ref
  | 4%Z => Some scroll_speed_ref
  | _ => None
  end.

(** [MatrixString::get_color] (MatrixString.cpp:40); [val] is a [uint8_t]. *)
Definition get_color (val : Z) : option colour_ref :=
  if ((val mod 2 ^ 8) =? 0)%Z then Some print_colour_ref else None.

(** [std::string::empty]. *)
Definition empty (s : string) : bool :=
  match s with
  | EmptyString => true
  | String _ _ => false
  end.

Section WithColour.
Context {Colour : Type} `{LEDColour Colour}.

(** [MatrixString::MatrixString] (MatrixString.cpp:17). *)
Definition new : t Colour := {|
  current_str := EmptyString;
  pos_x := 0;
  pos_y := 8;
  alignment := 0;
  scroll_speed := 0;
  print_colour := colour_of_rgb 0
|}.

(** [MatrixString::set_string] (MatrixString.cpp:47); a [const char *] is
    [None] for [nullptr] and otherwise the characters before the
    terminating zero. *)
Definition set_string (str : option string) (ms : t Colour) : t Colour :=
  match str with
  | None =>
      {| current_str := EmptyString; pos_x := pos_x ms; pos_y := pos_y ms;
         alignment := alignment ms; scroll_speed := scroll_speed ms;
         print_colour := print_colour ms |}
  | Some str =>
      {| current_str := str; pos_x := pos_x ms; pos_y := pos_y ms;
         alignment := alignment ms; scroll_speed := scroll_speed ms;
         print_colour := print_colour ms |}
  end.

(** What a pointer returned by [get_flt] points to, and a write through
    it. *)
Definition read_flt (ms : t Colour) (r : flt_ref) : float :=
  match r with
  | pos_x_ref => pos_x ms
  | pos_y_ref => pos_y ms
  | alignment_ref => alignment ms
  | scroll_speed_ref => scroll_speed ms
  end.

Definition write_flt (ms : t Colour) (r : flt_ref) (v : float) : t Colour :=
  {| current_str := current_str ms;
     pos_x := match r with pos_x_ref => v | _ => pos_x ms end;
     pos_y := match r with pos_y_ref => v | _ => pos_y ms end;
     alignment := match r with alignment_ref => v | _ => alignment ms end;
     scroll_speed := match r with scroll_speed_ref => v | _ => scroll_speed ms end;
     print_colour := print_colour ms |}.

(** [pos_x = v]. *)
Definition set_pos_x (v : float) (ms : t Colour) : t Colour :=
  {| current_str := current_str ms; pos_x := v; pos_y := pos_y ms;
     alignment := alignment ms; scroll_speed := scroll_speed ms;
     print_colour := print_colour ms |}.

(** The scroll update of [tick] (MatrixString.cpp:55-65);
    [matrix_width] is [matrix.width]. *)
Definition scroll (matrix_width : float) (delta_t : float) (ms : t Colour) : t Colour :=
  let font_width := 6 in
  let str_width := inject_Z (Z.of_nat (String.length (current_str ms))) * font_width in
  if flt_gt (fabsf (scroll_speed ms)) 0.1 && negb (empty (current_str ms)) then
    let ms := set_pos_x (pos_x ms - scroll_speed ms * delta_t) ms in
    if flt_lt (pos_x ms + (1 - alignment ms) * str_width) matrix_width
    then set_pos_x (pos_x ms + (str_width - font_width * 6)) ms
    else ms
  else ms.

(** [MatrixString::tick] (MatrixString.cpp:54): the element after the call
    and the [draw_string] call made on the matrix. *)
Definition tick (matrix_width : float) (delta_t : float) (ms : t Colour)
  : t Colour * draw_string_call Colour :=
  let font_width := 6 in
  let str_width := inject_Z (Z.of_nat (String.length (current_str ms))) * font_width in
  let ms := scroll matrix_width delta_t ms in
  (ms, {| text := current_str ms;
          text_x := pos_x ms - alignment ms * str_width;
          text_y := pos_y ms;
          glyph_width := 6;
          glyph_height := 8;
          text_colour := print_colour ms |}).

End WithColour.
End MatrixString.

(** ** Sample data

    A colour type and shape templates on which the definitions above can be
    run. *)

(** Modelled from the spec: [LED::Colour] of [tef/led/Colour.h], "RGB
    channels + alpha, with a derived brightness-modulation operation that
    returns a copy scaled by a fractional coverage value". *)
Record rgba := {
  red : float;
  green : float;
  blue : float;
  alpha_channel : float
}.

Definition rgba_bMod (c : rgba) (factor : float) : rgba :=
  {| red := Qred (red c * factor);
     green := Qred (green c * factor);
     blue := Qred (blue c * factor);
     alpha_channel := alpha_channel c |}.

Definition rgba_of_rgb (rgb : Z) : rgba :=
  {| red := inject_Z (Z.land (Z.shiftr rgb 16) 0xFF);
     green := inject_Z (Z.land (Z.shiftr rgb 8) 0xFF);
     blue := inject_Z (Z.land rgb 0xFF);
     alpha_channel := 1 |}.

#[export] Instance rgba_colour : LEDColour rgba := {|
  bMod := rgba_bMod;
  alpha := alpha_channel;
  colour_of_rgb := rgba_of_rgb;
  PINK := rgba_of_rgb 0xE91E63
|}.

(** Eleven columns with the same boundaries. *)
Definition uniform_eye (top bottom : float) : eye_shape :=
  mjoin (replicate 11 [top; bottom]).

(** Stand-ins for the templates of [Animation/Eyes.h], whose values are not
    among the sources at hand. *)
#[export] Instance sample_templates : EyeTemplates := {|
  relaxed_eye := uniform_eye 2 6;
  angry_eye := uniform_eye 3 5;
  happy_eye := uniform_eye 1 4;
  heart_eye := uniform_eye 0 7;
  surprised_eye := uniform_eye 0 8;
  shy_eye := uniform_eye 4 6
|}.

(** An [Eyes] element with the given five weights and iris position. *)
Definition sample_eyes (w : list float) (iris : float) : Eyes.t rgba :=
  {| Eyes.offset := 30;
     Eyes.outer_color := rgba_of_rgb 0x9900AA;
     Eyes.inner_color := rgba_of_rgb 0;
     Eyes.blush_colour := PINK;
     Eyes.iris_x := iris;
     Eyes.emotions :=
       zip_with (λ s x, {| Eyes.shape := s; Eyes.expressiveness := x |})
         [angry_eye; happy_eye; heart_eye; surprised_eye; shy_eye] w |}.



(** A [MatrixString] element at [pos_x = 40] with the given text and scroll
    speed. *)
Definition sample_text (str : string) (speed : float) : MatrixString.t rgba :=
  {| MatrixString.current_str := str;
     MatrixString.pos_x := 40;
     MatrixString.pos_y := 8;
     MatrixString.alignment := 0;
     MatrixString.scroll_speed := speed;
     MatrixString.print_colour := rgba_of_rgb 0 |}.

(** * Properties *)

(** Refutes the membership [H] of a call in an explicit list of calls that
    does not hold it. *)
Ltac absent_call H :=
  rewrite ?elem_of_cons, elem_of_nil in H;
  repeat (destruct H as [H | H]); solve [ vm_compute in H; congruence | exact H ].

(** ** Comparisons and rounding *)

Lemma flt_lt_true (a b : float) : flt_lt a b = true ↔ a < b.
Proof.
  unfold flt_lt. rewrite negb_true_iff, <- not_true_iff_false, Qle_bool_iff.
  split; [apply Qnot_le_lt | apply Qlt_not_le].
Qed.

Lemma flt_lt_false (a b : float) : flt_lt a b = false ↔ b <= a.
Proof. unfold flt_lt. rewrite negb_false_iff. apply Qle_bool_iff. Qed.

Lemma flt_gt_false (a b : float) : flt_gt a b = false ↔ a <= b.
Proof. apply flt_lt_false. Qed.

Lemma flt_ge_true (a b : float) : flt_ge a b = true ↔ b <= a.
Proof. apply Qle_bool_iff. Qed.

Lemma std_max_l (a b : float) : b <= a → std_max a b = a.
Proof. intros Hle. unfold std_max. apply flt_lt_false in Hle. now rewrite Hle. Qed.

Lemma std_max_r (a b : float) : a < b → std_max a b = b.
Proof. intros Hlt. unfold std_max. apply flt_lt_true in Hlt. now rewrite Hlt. Qed.

Lemma Qfloor_unique (x : Q) (k : Z) :
  inject_Z k <= x → x < inject_Z (k + 1) → Qfloor x = k.
Proof.
  intros Hlo Hhi.
  pose proof (Qfloor_le x) as Hfl. pose proof (Qlt_floor x) as Hlf.
  assert (Qfloor x < k + 1)%Z.
  { rewrite Zlt_Qlt. eapply Qle_lt_trans; eassumption. }
  assert (k < Qfloor x + 1)%Z.
  { rewrite Zlt_Qlt. eapply Qle_lt_trans; eassumption. }
  lia.
Qed.

Lemma truncf_nonneg (x : float) : 0 <= x → truncf x = Qfloor x.
Proof.
  destruct x as [n d]. unfold Qle, truncf, Qfloor. simpl. intros Hn.
  apply Z.quot_div_nonneg; lia.
Qed.

Lemma truncf_proper (x y : Q) : x == y → truncf x = truncf y.
Proof.
  revert x y.
  assert (Hneg : ∀ x, x <= 0 → truncf x = Qceiling x).
  { intros [n d]. unfold Qle, truncf, Qceiling, Qfloor. simpl. intros Hn.
    rewrite <- (Z.opp_involutive n) at 1. rewrite Z.quot_opp_l by lia.
    f_equal. apply Z.quot_div_nonneg; lia. }
  intros x y Hxy. destruct (Qlt_le_dec x 0) as [Hx | Hx].
  - assert (Hy : y <= 0) by (rewrite <- Hxy; now apply Qlt_le_weak).
    rewrite (Hneg x), (Hneg y) by (assumption || now apply Qlt_le_weak).
    now rewrite Hxy.
  - assert (Hy : 0 <= y) by now rewrite <- Hxy.
    rewrite (truncf_nonneg x), (truncf_nonneg y) by assumption.
    now rewrite Hxy.
Qed.

(** For a non-negative [x], [fmodf x 1] is the fractional part. *)
Lemma fmodf_1_frac (x : float) : 0 <= x → fmodf x 1 == x - inject_Z (Qfloor x).
Proof.
  intros Hx. unfold fmodf.
  assert (Hdiv : x / 1 == x) by (field).
  rewrite (truncf_proper _ _ Hdiv), truncf_nonneg by assumption. ring.
Qed.

(** For a non-negative clock, [fmodf clock 10] is the phase of the clock in
    its period of ten time units. *)
Lemma fmodf_10_phase (clock : Q) :
  0 <= clock →
  0 <= fmodf clock 10 < 10
  ∧ clock == 10 * inject_Z (Qfloor (clock / 10)) + fmodf clock 10.
Proof.
  intros Hclock. unfold fmodf.
  assert (Hdiv : 0 <= clock / 10).
  { apply Qle_shift_div_l; [reflexivity | lra]. }
  rewrite truncf_nonneg by assumption.
  pose proof (Qfloor_le (clock / 10)) as Hlo.
  pose proof (Qlt_floor (clock / 10)) as Hhi.
  rewrite inject_Z_plus in Hhi.
  assert (Hq : clock == 10 * (clock / 10)) by (field).
  set (n := inject_Z (Qfloor (clock / 10))) in *.
  set (q := clock / 10) in *.
  change (inject_Z 1) with 1 in Hhi.
  repeat split; lra.
Qed.

Lemma fmodf_10_midpoint (k : nat) :
  fmodf (5 + 10 * inject_Z (Z.of_nat k)) 10 == 5.
Proof.
  unfold fmodf.
  assert (Hdiv : (5 + 10 * inject_Z (Z.of_nat k)) / 10 == 0.5 + inject_Z (Z.of_nat k))
    by (field).
  assert (Hk : 0 <= inject_Z (Z.of_nat k)).
  { change 0 with (inject_Z 0). rewrite <- Zle_Qle. lia. }
  rewrite (truncf_proper _ _ Hdiv), truncf_nonneg by lra.
  rewrite (Qfloor_unique _ (Z.of_nat k)).
  - ring.
  - lra.
  - rewrite inject_Z_plus. change (inject_Z 1) with 1. lra.
Qed.

Lemma calculate_blink_skipped (clock : float) (total_eye : eye_shape) :
  Eyes.eye_close_factor clock <= 0 →
  Eyes.calculate_blink clock total_eye = Some total_eye.
Proof.
  intros Hcf. unfold Eyes.calculate_blink.
  apply flt_gt_false in Hcf. now rewrite Hcf.
Qed.

(** C6: the blink close factor is [1.3 - |(clock mod 10) - 5| * 15], where
    [clock mod 10] is [fmodf clock 10], the phase of a non-negative clock in
    its period of ten; it is at most 1.3 and equals 1.3 at every clock that is 5 modulo 10; at clock
    0 and at clock 10 it equals [1.3 - 5 * 15], which is negative, and
    [calculate_blink] then returns the shape it was given. *)
Theorem C6_eye_close_factor :
  (∀ clock, Eyes.eye_close_factor clock = 1.3 - Qabs (fmodf clock 10 - 5) * 15)
  ∧ (∀ clock : Q, 0 <= clock →
       0 <= fmodf clock 10 < 10
       ∧ clock == 10 * inject_Z (Qfloor (clock / 10)) + fmodf clock 10)
  ∧ (∀ clock, Eyes.eye_close_factor clock <= 1.3)
  ∧ (∀ k : nat, Eyes.eye_close_factor (5 + 10 * inject_Z (Z.of_nat k)) == 1.3)
  ∧ Eyes.eye_close_factor 5 == 1.3
  ∧ (Eyes.eye_close_factor 0 == 1.3 - 5 * 15
     ∧ Eyes.eye_close_factor 0 < 0
     ∧ ∀ total_eye, Eyes.calculate_blink 0 total_eye = Some total_eye)
  ∧ (Eyes.eye_close_factor 10 == 1.3 - 5 * 15
     ∧ Eyes.eye_close_factor 10 < 0
     ∧ ∀ total_eye, Eyes.calculate_blink 10 total_eye = Some total_eye).
Proof.
  split; [reflexivity |].
  split; [exact fmodf_10_phase |].
  split.
  { intros clock. unfold Eyes.eye_close_factor, fabsf.
    pose proof (Qabs_nonneg (fmodf clock 10 - 5)). lra. }
  split.
  { intros k. unfold Eyes.eye_close_factor, fabsf.
    rewrite fmodf_10_midpoint. reflexivity. }
  split; [reflexivity |].
  split; (split; [reflexivity | split; [reflexivity |]]);
    intros total_eye; now apply calculate_blink_skipped.
Qed.

Lemma C6_eye_close_factor_witness :
  (0 <= fmodf 27.5 10 < 10 ∧ 27.5 == 10 * inject_Z (Qfloor (27.5 / 10)) + fmodf 27.5 10)
  ∧ Eyes.eye_close_factor 25 == 1.3.
Proof.
  destruct C6_eye_close_factor as (_ & Hphase & _ & Hmid & _).
  split; [apply Hphase; discriminate | exact (Hmid 2%nat)].
Defined.

(** ** Checked arrays and loops *)

Lemma store_Some (source : eye_shape) (i : nat) (v : float) :
  (i < length source)%nat → store source i v = Some (<[i:=v]> source).
Proof. intros Hi. unfold store. now rewrite decide_True. Qed.

Lemma for_each_app {S : Type} (l1 l2 : list nat) (body : nat → S → option S) (s : S) :
  for_each (l1 ++ l2) body s = for_each l1 body s ≫= for_each l2 body.
Proof.
  revert s. induction l1 as [| i l1 IH]; intros s; simpl; [reflexivity |].
  destruct (body i s) as [s' |]; simpl; [apply IH | reflexivity].
Qed.

(** A loop whose every iteration succeeds and keeps [P] succeeds and
    keeps [P]. *)
Lemma for_each_invariant {S : Type} (P : S → Prop) (idx : list nat)
    (body : nat → S → option S) (s : S) :
  P s →
  (∀ i s, i ∈ idx → P s → ∃ s', body i s = Some s' ∧ P s') →
  ∃ s', for_each idx body s = Some s' ∧ P s'.
Proof.
  revert s. induction idx as [| i idx IH]; intros s HP Hbody; simpl.
  - eauto.
  - destruct (Hbody i s) as (s1 & -> & HP1); [left | assumption |]. simpl.
    apply IH; [assumption |]. intros j s2 Hj. apply Hbody. now right.
Qed.

Lemma loop_indices_unit (n : nat) : loop_indices 0 n 1 = seq 0 n.
Proof.
  unfold loop_indices. rewrite Nat.sub_0_r, Nat.add_0_r, Nat.div_1_r.
  rewrite <- (list_fmap_id (seq 0 n)) at 2.
  apply list_fmap_ext. intros _ k _. unfold id. lia.
Qed.

Lemma loop_indices_columns :
  loop_indices 0 EYE_SHAPE_SIZE 2 = (λ c, c * 2)%nat <$> seq 0 11.
Proof. reflexivity. Qed.

(** ** The blink (Eyes.cpp:80-95) *)

Section Blink.
Variables top_fact_top top_fact_bottom bottom_fact_top bottom_fact_bottom : float.

Local Abbreviation new_top top bottom :=
  (top * top_fact_top + bottom * top_fact_bottom).
Local Abbreviation new_bottom top bottom :=
  (new_top top bottom * bottom_fact_top + bottom * bottom_fact_bottom).

Lemma blink_column_Some (i : nat) (total_eye : eye_shape) (top bottom : float) :
  total_eye !! i = Some top →
  total_eye !! (i + 1)%nat = Some bottom →
  Eyes.blink_column top_fact_top top_fact_bottom bottom_fact_top bottom_fact_bottom
    i total_eye
  = Some (<[(i + 1)%nat := new_bottom top bottom]> (<[i := new_top top bottom]> total_eye)).
Proof.
  intros Htop Hbottom. unfold Eyes.blink_column.
  pose proof (lookup_lt_Some _ _ _ Htop) as Hi.
  pose proof (lookup_lt_Some _ _ _ Hbottom) as Hi1.
  rewrite Htop, Hbottom. simpl.
  rewrite store_Some by assumption. simpl.
  rewrite list_lookup_insert_eq by assumption. simpl.
  rewrite list_lookup_insert_ne by lia. rewrite Hbottom. simpl.
  rewrite store_Some by (rewrite length_insert; assumption).
  reflexivity.
Qed.

(** The loop over the columns [first .. first + count - 1]: those columns
    are rewritten from their own old boundaries, every other entry is
    kept. *)
Lemma blink_columns (count : nat) : ∀ (first : nat) (total_eye : eye_shape),
  ((first + count) * 2 ≤ length total_eye)%nat →
  ∃ blinked,
    for_each ((λ c, c * 2)%nat <$> seq first count)
      (Eyes.blink_column top_fact_top top_fact_bottom bottom_fact_top bottom_fact_bottom)
      total_eye = Some blinked
    ∧ length blinked = length total_eye
    ∧ (∀ c top bottom, (first ≤ c < first + count)%nat →
         total_eye !! (c * 2)%nat = Some top →
         total_eye !! (c * 2 + 1)%nat = Some bottom →
         blinked !! (c * 2)%nat = Some (new_top top bottom)
         ∧ blinked !! (c * 2 + 1)%nat = Some (new_bottom top bottom))
    ∧ (∀ j, (j < first * 2 ∨ (first + count) * 2 ≤ j)%nat →
         blinked !! j = total_eye !! j).
Proof.
  induction count as [| count IH]; intros first total_eye Hlen.
  - exists total_eye. simpl. repeat split; try reflexivity; intros; lia.
  - destruct (lookup_lt_is_Some_2 total_eye (first * 2)) as [top Htop]; [lia |].
    destruct (lookup_lt_is_Some_2 total_eye (first * 2 + 1)) as [bottom Hbottom]; [lia |].
    simpl. rewrite (blink_column_Some _ _ _ _ Htop Hbottom). simpl.
    set (next := <[(first * 2 + 1)%nat := _]> _).
    assert (Hnext : length next = length total_eye).
    { unfold next. now rewrite !length_insert. }
    destruct (IH (S first) next) as (blinked & Hrun & Hlength & Hcols & Hrest).
    { rewrite Hnext. lia. }
    exists blinked. split; [exact Hrun |]. split; [congruence |]. split.
    + intros c top' bottom' Hc Htop' Hbottom'.
      destruct (decide (c = first)) as [-> | Hne].
      * rewrite !Hrest by lia. unfold next.
        rewrite list_lookup_insert_ne by lia.
        rewrite list_lookup_insert_eq by lia.
        rewrite list_lookup_insert_eq by (rewrite length_insert; lia).
        split; congruence.
      * apply Hcols; [lia | |]; unfold next;
          rewrite !list_lookup_insert_ne by lia; assumption.
    + intros j Hj. rewrite Hrest by lia. unfold next.
      rewrite !list_lookup_insert_ne by lia. reflexivity.
Qed.

End Blink.

(** C3: when the close factor is positive, every column gets
    [new_top = old_top * (1 - 0.7 * cf) + old_bottom * (0.7 * cf)] and then
    [new_bottom = new_top * (0.3 * cf) + old_bottom * (1 - 0.7 * cf)], the
    bottom being computed from the top already written; when the close
    factor is not positive the shape is returned as it was given. *)
Theorem C3_calculate_blink (synch_time : float) (total_eye : eye_shape) :
  length total_eye = EYE_SHAPE_SIZE →
  let close_factor := Eyes.eye_close_factor synch_time in
  (0 < close_factor →
   ∃ blinked,
     Eyes.calculate_blink synch_time total_eye = Some blinked
     ∧ length blinked = EYE_SHAPE_SIZE
     ∧ ∀ column old_top old_bottom, (column < 11)%nat →
         total_eye !! (column * 2)%nat = Some old_top →
         total_eye !! (column * 2 + 1)%nat = Some old_bottom →
         ∃ new_top,
           new_top = old_top * (1 - 0.7 * close_factor) + old_bottom * (0.7 * close_factor)
           ∧ blinked !! (column * 2)%nat = Some new_top
           ∧ blinked !! (column * 2 + 1)%nat
             = Some (new_top * (0.3 * close_factor) + old_bottom * (1 - 0.7 * close_factor)))
  ∧ (close_factor <= 0 → Eyes.calculate_blink synch_time total_eye = Some total_eye).
Proof.
  intros Hlen close_factor. split.
  - intros Hpos. unfold Eyes.calculate_blink. fold close_factor.
    apply flt_lt_true in Hpos. unfold flt_gt. rewrite Hpos, Hlen.
    rewrite loop_indices_columns.
    destruct (blink_columns (1 - 0.7 * close_factor) (0.7 * close_factor)
                (0.3 * close_factor) (1 - 0.7 * close_factor) 11 0 total_eye)
      as (blinked & Hrun & Hlength & Hcols & _).
    { rewrite Hlen. unfold EYE_SHAPE_SIZE. lia. }
    exists blinked. split; [exact Hrun |]. split; [congruence |].
    intros column old_top old_bottom Hcolumn Htop Hbottom.
    destruct (Hcols column old_top old_bottom) as [Hnew_top Hnew_bottom];
      [lia | assumption | assumption |].
    eexists. split; [reflexivity |]. split; assumption.
  - now apply calculate_blink_skipped.
Qed.

Lemma C3_calculate_blink_witness :
  ∃ blinked new_top new_bottom,
    Eyes.calculate_blink 5 (uniform_eye 2 6) = Some blinked
    ∧ blinked !! 0%nat = Some new_top
    ∧ blinked !! 1%nat = Some new_bottom
    ∧ new_top == 5.64
    ∧ new_bottom == 2.7396.
Proof.
  destruct (C3_calculate_blink 5 (uniform_eye 2 6) eq_refl) as [Hblink _].
  destruct Hblink as (blinked & Hrun & _ & Hcols); [reflexivity |].
  destruct (Hcols 0%nat 2 6) as (new_top & Hnew & Htop & Hbottom);
    [lia | reflexivity | reflexivity |].
  exists blinked, new_top. eexists. split; [exact Hrun |].
  split; [exact Htop |]. split; [exact Hbottom |].
  rewrite Hnew. split; reflexivity.
Defined.

(** ** Shapes keep their size *)

Lemma for_each_preserves {S : Type} (P : S → Prop) (idx : list nat)
    (body : nat → S → option S) :
  (∀ i s s', body i s = Some s' → P s → P s') →
  ∀ s s', for_each idx body s = Some s' → P s → P s'.
Proof.
  intros Hbody. induction idx as [| i idx IH]; intros s s' Hrun HP; simpl in Hrun.
  - congruence.
  - destruct (body i s) as [s1 |] eqn:Hstep; simpl in Hrun; [| discriminate].
    eapply IH; [exact Hrun |]. eapply Hbody; eassumption.
Qed.

Lemma store_length (source stored : eye_shape) (i : nat) (v : float) :
  store source i v = Some stored → length stored = length source.
Proof.
  unfold store. case_decide; [| discriminate].
  intros [= <-]. apply length_insert.
Qed.

Lemma add_entry_length (to_add : eye_shape) (fact : float) (i : nat)
    (source added : eye_shape) :
  add_entry to_add fact i source = Some added → length added = length source.
Proof.
  unfold add_entry. destruct (source !! i); simpl; [| discriminate].
  destruct (to_add !! i); simpl; [| discriminate]. apply store_length.
Qed.

Lemma add_shapes_length (source to_add added : eye_shape) (fact : float) :
  add_shapes source to_add fact = Some added → length added = length source.
Proof.
  unfold add_shapes. destruct (flt_lt fact 0.1); [congruence |].
  intros Hrun.
  apply (for_each_preserves (λ s, length s = length source) _ _
           (λ i s s' Hs Hl, eq_trans (add_entry_length _ _ _ _ _ Hs) Hl) _ _ Hrun).
  reflexivity.
Qed.

Lemma blink_column_length (tt tb bt bb : float) (i : nat) (total_eye blinked : eye_shape) :
  Eyes.blink_column tt tb bt bb i total_eye = Some blinked →
  length blinked = length total_eye.
Proof.
  unfold Eyes.blink_column.
  destruct (total_eye !! i); simpl; [| discriminate].
  destruct (total_eye !! (i + 1)%nat); simpl; [| discriminate].
  destruct (store total_eye i _) as [s1 |] eqn:Hs1; simpl; [| discriminate].
  destruct (s1 !! i); simpl; [| discriminate].
  destruct (s1 !! (i + 1)%nat); simpl; [| discriminate].
  intros Hs2. apply store_length in Hs1, Hs2. congruence.
Qed.

Lemma calculate_blink_length (synch_time : float) (total_eye blinked : eye_shape) :
  Eyes.calculate_blink synch_time total_eye = Some blinked →
  length blinked = length total_eye.
Proof.
  unfold Eyes.calculate_blink. destruct (flt_gt _ 0); [| congruence].
  intros Hrun.
  apply (for_each_preserves (λ s, length s = length total_eye) _ _
           (λ i s s' Hs Hl, eq_trans (blink_column_length _ _ _ _ _ _ _ Hs) Hl) _ _ Hrun).
  reflexivity.
Qed.

Section BlendSize.
Context {Colour : Type} `{LEDColour Colour} `{EyeTemplates}.

Lemma add_emotions_length (e : Eyes.t Colour) (shapes : list Eyes.eye_shape_def) :
  ∀ total_eye blended,
    Eyes.add_emotions e shapes total_eye = Some blended →
    length blended = length total_eye.
Proof.
  induction shapes as [| shape0 shapes IH]; intros total_eye blended; simpl.
  - congruence.
  - destruct (add_shapes total_eye _ _) as [s1 |] eqn:Hadd; simpl; [| discriminate].
    intros Hrest. apply IH in Hrest. apply add_shapes_length in Hadd. congruence.
Qed.

Lemma blend_length (e : Eyes.t Colour) (blended : eye_shape) :
  Eyes.blend e = Some blended → length blended = EYE_SHAPE_SIZE.
Proof.
  unfold Eyes.blend.
  destruct (add_shapes Eyes.closed_eye _ _) as [s1 |] eqn:Hadd; simpl; [| discriminate].
  intros Hrest. apply add_emotions_length in Hrest. apply add_shapes_length in Hadd.
  rewrite Hrest, Hadd. reflexivity.
Qed.

End BlendSize.

(** ** The iris notch (Eyes.cpp:128-131) *)

Lemma roundf_proper (x y : Q) : x == y → roundf x = roundf y.
Proof.
  intros Hxy. unfold roundf.
  rewrite (Qleb_comp 0 0 (Qeq_refl 0) x y Hxy).
  destruct (Qle_bool 0 y); [apply Qfloor_comp | apply Qceiling_comp]; now rewrite Hxy.
Qed.

Lemma clip_iris_out_of_range (iris_position : float) (total_eye : eye_shape) :
  length total_eye = EYE_SHAPE_SIZE →
  (roundf iris_position < 0 ∨ 10 < roundf iris_position)%Z →
  Eyes.clip_iris iris_position total_eye = Some total_eye.
Proof.
  intros Hlen Hout. unfold Eyes.clip_iris. rewrite Hlen.
  change (Z.of_nat (EYE_SHAPE_SIZE / 2) - 1)%Z with 10%Z.
  destruct (roundf iris_position >=? 0)%Z eqn:Hlo; [| reflexivity].
  destruct (roundf iris_position <=? 10)%Z eqn:Hhi; [| reflexivity].
  lia.
Qed.

Lemma clip_iris_in_range (iris_position : float) (total_eye : eye_shape) :
  length total_eye = EYE_SHAPE_SIZE →
  (0 ≤ roundf iris_position ≤ 10)%Z →
  ∃ top bottom,
    total_eye !! (Z.to_nat (roundf iris_position) * 2)%nat = Some top
    ∧ total_eye !! (Z.to_nat (roundf iris_position) * 2 + 1)%nat = Some bottom
    ∧ Eyes.clip_iris iris_position total_eye
      = Some (<[(Z.to_nat (roundf iris_position) * 2)%nat := std_max top (bottom - 0.1)]>
                total_eye).
Proof.
  intros Hlen Hin. unfold Eyes.clip_iris. rewrite Hlen.
  change (Z.of_nat (EYE_SHAPE_SIZE / 2) - 1)%Z with 10%Z.
  set (col := Z.to_nat (roundf iris_position)).
  assert (Hcol : (col < 11)%nat) by (unfold col; lia).
  replace (roundf iris_position >=? 0)%Z with true by lia.
  replace (roundf iris_position <=? 10)%Z with true by lia. simpl.
  destruct (lookup_lt_is_Some_2 total_eye (col * 2)) as [top Htop].
  { rewrite Hlen. unfold EYE_SHAPE_SIZE. lia. }
  destruct (lookup_lt_is_Some_2 total_eye (col * 2 + 1)) as [bottom Hbottom].
  { rewrite Hlen. unfold EYE_SHAPE_SIZE. lia. }
  exists top, bottom. rewrite Htop, Hbottom. simpl.
  rewrite store_Some by (rewrite Hlen; unfold EYE_SHAPE_SIZE; lia).
  repeat split.
Qed.

Lemma clip_iris_total (iris_position : float) (total_eye : eye_shape) :
  length total_eye = EYE_SHAPE_SIZE →
  ∃ clipped,
    Eyes.clip_iris iris_position total_eye = Some clipped
    ∧ length clipped = EYE_SHAPE_SIZE.
Proof.
  intros Hlen.
  destruct (Z_lt_dec (roundf iris_position) 0) as [Hneg | Hnonneg].
  { rewrite clip_iris_out_of_range by (assumption || now left). eauto. }
  destruct (Z_lt_dec 10 (roundf iris_position)) as [Hbig | Hsmall].
  { rewrite clip_iris_out_of_range by (assumption || now right). eauto. }
  destruct (clip_iris_in_range iris_position total_eye Hlen)
    as (top & bottom & _ & _ & ->); [lia |].
  eexists. split; [reflexivity |]. now rewrite length_insert.
Qed.

Lemma std_max_bounds (a b : float) :
  a <= std_max a b ∧ b <= std_max a b ∧ (std_max a b = a ∨ std_max a b = b).
Proof.
  destruct (Qlt_le_dec a b) as [Hlt | Hle].
  - rewrite (std_max_r _ _ Hlt). repeat split; [lra | lra | now right].
  - rewrite (std_max_l _ _ Hle). repeat split; [lra | lra | now left].
Qed.

(** C5: when [col = round(iris_position)] is one of the columns 0..10, the
    iris step replaces the top boundary of that column by
    [max(top, bottom - 0.1)] and keeps every other entry, the bottom of
    the column included; for [iris_position = 3.0], [top = 1.0] and
    [bottom = 4.0] the column is column 3 and the new top is 3.9. *)
Theorem C5_clip_iris (iris_position : float) (total_eye : eye_shape) :
  length total_eye = EYE_SHAPE_SIZE →
  (0 ≤ roundf iris_position ≤ 10)%Z →
  let col := Z.to_nat (roundf iris_position) in
  ∃ clipped top bottom new_top,
    total_eye !! (col * 2)%nat = Some top
    ∧ total_eye !! (col * 2 + 1)%nat = Some bottom
    ∧ Eyes.clip_iris iris_position total_eye = Some clipped
    ∧ clipped !! (col * 2)%nat = Some new_top
    ∧ new_top = std_max top (bottom - 0.1)
    ∧ top <= new_top
    ∧ bottom - 0.1 <= new_top
    ∧ (new_top = top ∨ new_top = bottom - 0.1)
    ∧ clipped !! (col * 2 + 1)%nat = Some bottom
    ∧ (∀ j, j ≠ (col * 2)%nat → clipped !! j = total_eye !! j)
    ∧ (iris_position == 3 → col = 3%nat ∧ (top == 1 → bottom == 4 → new_top == 3.9)).
Proof.
  intros Hlen Hin col.
  destruct (clip_iris_in_range iris_position total_eye Hlen Hin)
    as (top & bottom & Htop & Hbottom & Hclip).
  fold col in Htop, Hbottom, Hclip.
  pose proof (lookup_lt_Some _ _ _ Htop) as Hcol.
  destruct (std_max_bounds top (bottom - 0.1)) as (Hge_top & Hge_notch & Hcases).
  exists (<[(col * 2)%nat := std_max top (bottom - 0.1)]> total_eye), top, bottom,
    (std_max top (bottom - 0.1)).
  split; [exact Htop |]. split; [exact Hbottom |]. split; [exact Hclip |].
  split; [now apply list_lookup_insert_eq |].
  split; [reflexivity |].
  split; [exact Hge_top |]. split; [exact Hge_notch |]. split; [exact Hcases |].
  split; [rewrite list_lookup_insert_ne by lia; exact Hbottom |].
  split.
  - intros j Hj. now apply list_lookup_insert_ne.
  - intros Hiris. split.
    + unfold col. now rewrite (roundf_proper _ _ Hiris).
    + intros Htop1 Hbottom4. rewrite std_max_r by lra. lra.
Qed.

Lemma C5_clip_iris_witness :
  ∃ clipped new_top,
    Eyes.clip_iris 3 (uniform_eye 1 4) = Some clipped
    ∧ clipped !! 6%nat = Some new_top
    ∧ new_top == 3.9
    ∧ clipped !! 7%nat = Some 4.
Proof.
  destruct (C5_clip_iris 3 (uniform_eye 1 4) eq_refl)
    as (clipped & top & bottom & new_top & Htop & Hbottom & Hclip & Hnew & _ & _ & _ & _
        & Hkeep & _ & Hexample).
  { vm_compute. split; discriminate. }
  injection Htop as <-. injection Hbottom as <-.
  exists clipped, new_top. split; [exact Hclip |]. split; [exact Hnew |].
  split; [| exact Hkeep].
  now apply Hexample.
Defined.

(** C8: when the rounded iris position is outside 0..10 the iris step makes
    no array access and returns the shape it was given, so that the shape
    [tick] draws is the blinked blend; for every iris position the step
    ends without an out-of-bounds access. *)
Theorem C8_iris_out_of_range :
  (∀ (iris_position : float) (total_eye : eye_shape),
     length total_eye = EYE_SHAPE_SIZE →
     is_Some (Eyes.clip_iris iris_position total_eye)
     ∧ ((roundf iris_position < 0 ∨ 10 < roundf iris_position)%Z →
        Eyes.clip_iris iris_position total_eye = Some total_eye))
  ∧ (∀ (Colour : Type) (colours : LEDColour Colour) (templates : EyeTemplates)
       (synch_time : float) (e : Eyes.t Colour),
       (roundf (Eyes.iris_x e) < 0 ∨ 10 < roundf (Eyes.iris_x e))%Z →
       Eyes.final_shape synch_time e = Eyes.blend e ≫= Eyes.calculate_blink synch_time).
Proof.
  split.
  - intros iris_position total_eye Hlen. split.
    + destruct (clip_iris_total iris_position total_eye Hlen) as (clipped & -> & _).
      eauto.
    + now apply clip_iris_out_of_range.
  - intros Colour colours templates synch_time e Hout. unfold Eyes.final_shape.
    destruct (Eyes.blend e) as [blended |] eqn:Hblend; simpl; [| reflexivity].
    destruct (Eyes.calculate_blink synch_time blended) as [blinked |] eqn:Hblink;
      simpl; [| reflexivity].
    apply clip_iris_out_of_range; [| assumption].
    apply calculate_blink_length in Hblink. apply blend_length in Hblend. congruence.
Qed.

Lemma C8_iris_out_of_range_witness :
  Eyes.clip_iris 11.2 (uniform_eye 2 6) = Some (uniform_eye 2 6)
  ∧ Eyes.clip_iris (-0.7) (uniform_eye 2 6) = Some (uniform_eye 2 6)
  ∧ Eyes.final_shape 5 (sample_eyes [0; 1; 0; 0; 0] 26)
    = Eyes.blend (sample_eyes [0; 1; 0; 0; 0] 26) ≫= Eyes.calculate_blink 5.
Proof.
  destruct C8_iris_out_of_range as [Hclip Hshape].
  split; [| split].
  - apply (Hclip 11.2 (uniform_eye 2 6) eq_refl). right. reflexivity.
  - apply (Hclip (-0.7) (uniform_eye 2 6) eq_refl). left. reflexivity.
  - apply (Hshape rgba rgba_colour sample_templates). right. reflexivity.
Defined.

(** ** Rasterisation (Eyes.cpp:64-78) *)

Section Raster.
Context {Colour : Type} `{LEDColour Colour}.

Lemma draw_column_skipped (e : Eyes.t Colour) (total_eye : eye_shape) (i : nat)
    (top bottom : float) :
  total_eye !! i = Some top →
  total_eye !! (i + 1)%nat = Some bottom →
  bottom <= top →
  Eyes.draw_column e total_eye i = Some [].
Proof.
  intros Htop Hbottom Hclosed. unfold Eyes.draw_column.
  rewrite Htop, Hbottom. simpl.
  apply flt_ge_true in Hclosed. now rewrite Hclosed.
Qed.

(** Every call made for the column at index [i] is in matrix column
    [i / 2 + 18]. *)
Lemma draw_column_x (e : Eyes.t Colour) (total_eye : eye_shape) (i : nat)
    (calls : list (set_colour_call Colour)) :
  Eyes.draw_column e total_eye i = Some calls →
  ∀ x y colour, (x, y, colour) ∈ calls → x = Z.of_nat (i / 2 + 18).
Proof.
  unfold Eyes.draw_column.
  destruct (total_eye !! i) as [top |]; simpl; [| discriminate].
  destruct (total_eye !! (i + 1)%nat) as [bottom |]; simpl; [| discriminate].
  destruct (flt_ge top bottom); intros [= <-] x y colour Hin.
  - inversion Hin.
  - rewrite elem_of_app, list_elem_of_fmap in Hin.
    destruct Hin as [(y0 & Hcall & _) | Hin].
    + congruence.
    + rewrite !elem_of_cons in Hin.
      destruct Hin as [Hcall | [Hcall | Hnone]]; [congruence | congruence | inversion Hnone].
Qed.

(** The calls of the column loop come from the columns it visits. *)
Lemma draw_loop_origin (e : Eyes.t Colour) (total_eye : eye_shape) (idx : list nat) :
  ∀ drawn calls,
    for_each idx
      (λ i drawn, column ← Eyes.draw_column e total_eye i; Some (drawn ++ column))
      drawn = Some calls →
    ∀ call, call ∈ calls →
      call ∈ drawn
      ∨ ∃ i column, i ∈ idx ∧ Eyes.draw_column e total_eye i = Some column ∧ call ∈ column.
Proof.
  induction idx as [| i idx IH]; intros drawn calls Hrun call Hin; simpl in Hrun.
  - left. congruence.
  - destruct (Eyes.draw_column e total_eye i) as [column |] eqn:Hcolumn;
      simpl in Hrun; [| discriminate].
    destruct (IH _ _ Hrun call Hin) as [Hold | (j & column' & Hj & Hcolumn' & Hcall)].
    + apply elem_of_app in Hold as [Hold | Hnew]; [now left |].
      right. exists i, column. repeat split; [left | assumption | assumption].
    + right. exists j, column'. repeat split; [now right | assumption | assumption].
Qed.

Lemma draw_column_total (e : Eyes.t Colour) (total_eye : eye_shape) (i : nat) :
  (i + 1 < length total_eye)%nat → is_Some (Eyes.draw_column e total_eye i).
Proof.
  intros Hi. unfold Eyes.draw_column.
  destruct (lookup_lt_is_Some_2 total_eye i) as [top ->]; [lia |].
  destruct (lookup_lt_is_Some_2 total_eye (i + 1)) as [bottom ->]; [lia |]. simpl.
  destruct (flt_ge top bottom); eauto.
Qed.

(** The column loop appends to what was drawn before it. *)
Lemma draw_loop_append (e : Eyes.t Colour) (total_eye : eye_shape) (idx : list nat) :
  ∀ drawn,
    for_each idx
      (λ i drawn, column ← Eyes.draw_column e total_eye i; Some (drawn ++ column))
      drawn
    = (drawn ++.) <$>
        for_each idx
          (λ i drawn, column ← Eyes.draw_column e total_eye i; Some (drawn ++ column))
          [].
Proof.
  induction idx as [| i idx IH]; intros drawn; simpl.
  - now rewrite app_nil_r.
  - destruct (Eyes.draw_column e total_eye i) as [column |]; simpl; [| reflexivity].
    rewrite (IH (drawn ++ column)), (IH column).
    destruct (for_each idx _ []) as [rest |]; simpl; [| reflexivity].
    now rewrite app_assoc.
Qed.

Lemma draw_loop_total (e : Eyes.t Colour) (total_eye : eye_shape) (idx : list nat) :
  (∀ i, i ∈ idx → (i + 1 < length total_eye)%nat) →
  is_Some (for_each idx
             (λ i drawn, column ← Eyes.draw_column e total_eye i; Some (drawn ++ column))
             []).
Proof.
  intros Hidx.
  destruct (for_each_invariant (λ _, True) idx
              (λ i drawn, column ← Eyes.draw_column e total_eye i; Some (drawn ++ column))
              []) as (calls & -> & _); [exact I | | eauto].
  intros i drawn Hi _.
  destruct (draw_column_total e total_eye i (Hidx i Hi)) as [column ->].
  simpl. eauto.
Qed.

Lemma draw_total_eye_total (e : Eyes.t Colour) (total_eye : eye_shape) :
  length total_eye = EYE_SHAPE_SIZE → is_Some (Eyes.draw_total_eye e total_eye).
Proof.
  intros Hlen. unfold Eyes.draw_total_eye. rewrite Hlen, loop_indices_columns.
  apply draw_loop_total. intros i Hi.
  apply list_elem_of_fmap in Hi as (c & -> & Hc). apply elem_of_seq in Hc.
  rewrite Hlen. unfold EYE_SHAPE_SIZE. lia.
Qed.

(** The calls of [draw_total_eye] for one column stand together, between
    the calls for the columns before it and those for the columns after
    it, none of which is in its matrix column. *)
Lemma draw_total_eye_column (e : Eyes.t Colour) (total_eye : eye_shape) (column : nat) :
  length total_eye = EYE_SHAPE_SIZE →
  (column < 11)%nat →
  ∃ before column_calls after,
    Eyes.draw_total_eye e total_eye = Some (before ++ column_calls ++ after)
    ∧ Eyes.draw_column e total_eye (column * 2) = Some column_calls
    ∧ ∀ x y colour, (x, y, colour) ∈ before ++ after → x ≠ Z.of_nat (column + 18).
Proof.
  intros Hlen Hcolumn. unfold Eyes.draw_total_eye.
  rewrite Hlen, loop_indices_columns.
  assert (Hseq : seq 0 11 = seq 0 column ++ column :: seq (S column) (10 - column)).
  { change (column :: seq (S column) (10 - column)) with (seq (0 + column) (S (10 - column))).
    rewrite <- seq_app. f_equal. lia. }
  rewrite Hseq, fmap_app, fmap_cons, for_each_app.
  assert (Hin : ∀ first count i,
            (first + count ≤ 11)%nat → i ∈ (λ c, c * 2)%nat <$> seq first count →
            (i + 1 < length total_eye)%nat).
  { intros first count i Hcount Hi.
    apply list_elem_of_fmap in Hi as (c & -> & Hc). apply elem_of_seq in Hc.
    rewrite Hlen. unfold EYE_SHAPE_SIZE. lia. }
  destruct (draw_loop_total e total_eye ((λ c, c * 2)%nat <$> seq 0 column))
    as [before Hbefore]; [intros i; apply Hin; lia |].
  destruct (draw_loop_total e total_eye ((λ c, c * 2)%nat <$> seq (S column) (10 - column)))
    as [after Hafter]; [intros i; apply Hin; lia |].
  destruct (draw_column_total e total_eye (column * 2)) as [column_calls Hcalls].
  { rewrite Hlen. unfold EYE_SHAPE_SIZE. lia. }
  exists before, column_calls, after.
  rewrite Hbefore. cbn [mbind option_bind for_each].
  rewrite Hcalls. cbn [mbind option_bind].
  rewrite draw_loop_append, Hafter. simpl.
  split; [now rewrite <- app_assoc |]. split; [reflexivity |].
  assert (Hother : ∀ first count calls x y colour,
            for_each ((λ c, c * 2)%nat <$> seq first count)
              (λ i drawn, column ← Eyes.draw_column e total_eye i; Some (drawn ++ column))
              [] = Some calls →
            (x, y, colour) ∈ calls →
            ∃ c, (first ≤ c < first + count)%nat ∧ x = Z.of_nat (c + 18)).
  { intros first count calls x y colour Hrun Hcall.
    destruct (draw_loop_origin _ _ _ _ _ Hrun _ Hcall)
      as [Hnone | (i & col & Hi & Hcol & Hcall')]; [inversion Hnone |].
    apply list_elem_of_fmap in Hi as (c & -> & Hc). apply elem_of_seq in Hc.
    exists c. split; [lia |].
    rewrite (draw_column_x _ _ _ _ Hcol _ _ _ Hcall'), Nat.div_mul by lia.
    reflexivity. }
  intros x y colour Hcall Hx.
  apply elem_of_app in Hcall as [Hcall | Hcall].
  - destruct (Hother _ _ _ _ _ _ Hbefore Hcall) as (c & Hc & ->). lia.
  - destruct (Hother _ _ _ _ _ _ Hafter Hcall) as (c & Hc & ->). lia.
Qed.

End Raster.

(** C7: [draw_total_eye] makes no [set_colour] call in the matrix column
    [column + 18] of a column whose top boundary is greater than or equal
    to its bottom boundary. *)
Theorem C7_closed_column_not_drawn {Colour : Type} `{LEDColour Colour}
    (e : Eyes.t Colour) (total_eye : eye_shape) (column : nat) (top bottom : float) :
  length total_eye = EYE_SHAPE_SIZE →
  (column < 11)%nat →
  total_eye !! (column * 2)%nat = Some top →
  total_eye !! (column * 2 + 1)%nat = Some bottom →
  top >= bottom →
  ∃ calls,
    Eyes.draw_total_eye e total_eye = Some calls
    ∧ ∀ x y colour, (x, y, colour) ∈ calls → x ≠ Z.of_nat (column + 18).
Proof.
  intros Hlen Hcolumn Htop Hbottom Hclosed.
  destruct (draw_total_eye_total e total_eye Hlen) as [calls Hdraw].
  exists calls. split; [exact Hdraw |].
  intros x y colour Hin Hx.
  unfold Eyes.draw_total_eye in Hdraw. rewrite Hlen, loop_indices_columns in Hdraw.
  destruct (draw_loop_origin _ _ _ _ _ Hdraw _ Hin)
    as [Hnone | (i & column_calls & Hi & Hcalls & Hcall)]; [inversion Hnone |].
  apply list_elem_of_fmap in Hi as (c & -> & _).
  pose proof (draw_column_x _ _ _ _ Hcalls _ _ _ Hcall) as Hx'.
  assert (c = column) as ->.
  { rewrite Nat.div_mul in Hx' by lia. lia. }
  rewrite (draw_column_skipped e total_eye _ top bottom) in Hcalls by assumption.
  injection Hcalls as <-. inversion Hcall.
Qed.

Lemma C7_closed_column_not_drawn_witness :
  ∃ calls,
    Eyes.draw_total_eye (sample_eyes [0; 0; 0; 0; 0] 3)
      (<[6%nat := 5.8]> (uniform_eye 2.1 5.1)) = Some calls
    ∧ ∀ x y colour, (x, y, colour) ∈ calls → x ≠ 21%Z.
Proof.
  apply (C7_closed_column_not_drawn (sample_eyes [0; 0; 0; 0; 0] 3)
           (<[6%nat := 5.8]> (uniform_eye 2.1 5.1)) 3 5.8 5.1);
    [reflexivity | lia | reflexivity | reflexivity | discriminate].
Defined.

Lemma draw_column_2_3_to_5_7 {Colour : Type} `{LEDColour Colour}
    (e : Eyes.t Colour) (total_eye : eye_shape) (i : nat) (top bottom : float) :
  total_eye !! i = Some top →
  total_eye !! (i + 1)%nat = Some bottom →
  top == 2.3 →
  bottom == 5.7 →
  ∃ top_coverage bottom_coverage,
    Eyes.draw_column e total_eye i
    = Some [ (Z.of_nat (i / 2 + 18), (3 + 1)%Z, Eyes.outer_color e);
             (Z.of_nat (i / 2 + 18), (4 + 1)%Z, Eyes.outer_color e);
             (Z.of_nat (i / 2 + 18), (2 + 1)%Z, bMod (Eyes.outer_color e) top_coverage);
             (Z.of_nat (i / 2 + 18), (5 + 1)%Z, bMod (Eyes.outer_color e) bottom_coverage) ]
    ∧ top_coverage == 0.7
    ∧ bottom_coverage == 0.7.
Proof.
  intros Htop Hbottom Htop_value Hbottom_value.
  assert (Hfloor_top : floorf top = 2%Z) by (unfold floorf; now rewrite Htop_value).
  assert (Hceil_top : ceilf top = 3%Z) by (unfold ceilf; now rewrite Htop_value).
  assert (Hfloor_bottom : floorf bottom = 5%Z) by (unfold floorf; now rewrite Hbottom_value).
  assert (Hclosed : flt_ge top bottom = false).
  { apply not_true_iff_false. rewrite flt_ge_true. lra. }
  exists (1 - fmodf top 1), (fmodf bottom 1). split; [| split].
  - unfold Eyes.draw_column. rewrite Htop, Hbottom. simpl.
    rewrite Hclosed, Hfloor_top, Hceil_top, Hfloor_bottom. reflexivity.
  - rewrite fmodf_1_frac by lra. fold (floorf top). rewrite Hfloor_top.
    change (inject_Z 2) with 2. lra.
  - rewrite fmodf_1_frac by lra. fold (floorf bottom). rewrite Hfloor_bottom.
    change (inject_Z 5) with 5. lra.
Qed.

(** C1 (as amended): for a column with [top = 2.3] and [bottom = 5.7],
    [draw_total_eye] paints rows 3 and 4 with [outer_color], row 2 with
    [outer_color] at coverage 0.7 and row 5 with [outer_color] at coverage
    0.7; these four calls are all it makes in the matrix column of that
    column, so each row is painted once.  Row r of the shape is matrix row
    r + 1. *)
Theorem C1_draw_total_eye_2_3_to_5_7 {Colour : Type} `{LEDColour Colour}
    (e : Eyes.t Colour) (total_eye : eye_shape) (column : nat) (top bottom : float) :
  length total_eye = EYE_SHAPE_SIZE →
  (column < 11)%nat →
  total_eye !! (column * 2)%nat = Some top →
  total_eye !! (column * 2 + 1)%nat = Some bottom →
  top == 2.3 →
  bottom == 5.7 →
  ∃ before column_calls after top_coverage bottom_coverage,
    Eyes.draw_total_eye e total_eye = Some (before ++ column_calls ++ after)
    ∧ (∀ x y colour, (x, y, colour) ∈ before ++ after → x ≠ Z.of_nat (column + 18))
    ∧ column_calls
      = [ (Z.of_nat (column + 18), (3 + 1)%Z, Eyes.outer_color e);
          (Z.of_nat (column + 18), (4 + 1)%Z, Eyes.outer_color e);
          (Z.of_nat (column + 18), (2 + 1)%Z, bMod (Eyes.outer_color e) top_coverage);
          (Z.of_nat (column + 18), (5 + 1)%Z, bMod (Eyes.outer_color e) bottom_coverage) ]
    ∧ top_coverage == 0.7
    ∧ bottom_coverage == 0.7
    ∧ NoDup (rows column_calls).
Proof.
  intros Hlen Hcolumn Htop Hbottom Htop_value Hbottom_value.
  destruct (draw_total_eye_column e total_eye column Hlen Hcolumn)
    as (before & column_calls & after & Hdraw & Hcalls & Hother).
  destruct (draw_column_2_3_to_5_7 e total_eye (column * 2) top bottom)
    as (top_coverage & bottom_coverage & Hfour & Htc & Hbc); try assumption.
  rewrite Nat.div_mul in Hfour by lia.
  rewrite Hcalls in Hfour. injection Hfour as Heq.
  exists before, column_calls, after, top_coverage, bottom_coverage.
  split; [exact Hdraw |]. split; [exact Hother |]. split; [exact Heq |].
  split; [exact Htc |]. split; [exact Hbc |].
  rewrite Heq. unfold rows. simpl.
  repeat (apply NoDup_cons_2; [rewrite ?elem_of_cons, elem_of_nil; lia |]).
  apply NoDup_nil_2.
Qed.

Lemma C1_draw_total_eye_2_3_to_5_7_witness :
  ∃ before after top_coverage bottom_coverage,
    Eyes.draw_total_eye (sample_eyes [0; 0; 0; 0; 0] 3)
      (<[7%nat := 5.7]> (<[6%nat := 2.3]> (uniform_eye 1 9)))
    = Some (before
            ++ [ (21, 4, rgba_of_rgb 0x9900AA)%Z;
                 (21, 5, rgba_of_rgb 0x9900AA)%Z;
                 (21%Z, 3%Z, rgba_bMod (rgba_of_rgb 0x9900AA) top_coverage);
                 (21%Z, 6%Z, rgba_bMod (rgba_of_rgb 0x9900AA) bottom_coverage) ]
            ++ after)
    ∧ (∀ x y colour, (x, y, colour) ∈ before ++ after → x ≠ 21%Z)
    ∧ top_coverage == 0.7
    ∧ bottom_coverage == 0.7.
Proof.
  destruct (C1_draw_total_eye_2_3_to_5_7 (sample_eyes [0; 0; 0; 0; 0] 3)
              (<[7%nat := 5.7]> (<[6%nat := 2.3]> (uniform_eye 1 9))) 3 2.3 5.7)
    as (before & calls & after & top_coverage & bottom_coverage
        & Hdraw & Hother & -> & Htc & Hbc & _);
    [reflexivity | lia | reflexivity | reflexivity | reflexivity | reflexivity |].
  exists before, after, top_coverage, bottom_coverage.
  split; [exact Hdraw |]. split; [exact Hother |]. split; assumption.
Defined.

(** C1, as stated, fails: of the rows 3..5 only rows 3 and 4 are painted
    with [outer_color]; row 5 (matrix row 6) is painted once, with the
    colour scaled by the coverage.  The same holds if the rows are read as
    matrix rows: matrix row 3 gets the scaled colour only. *)
Lemma C1_rows_3_to_5_not_all_solid :
  ∃ calls,
    Eyes.draw_total_eye (sample_eyes [0; 0; 0; 0; 0] 3)
      (<[7%nat := 5.7]> (<[6%nat := 2.3]> (uniform_eye 1 9))) = Some calls
    ∧ ¬ (∀ row, (3 ≤ row ≤ 5)%Z → (21, row + 1, rgba_of_rgb 0x9900AA)%Z ∈ calls)
    ∧ ¬ (∀ row, (3 ≤ row ≤ 5)%Z → (21, row, rgba_of_rgb 0x9900AA)%Z ∈ calls).
Proof.
  eexists. split; [vm_compute; reflexivity |]. split.
  - intros Hsolid. specialize (Hsolid 5%Z ltac:(lia)). absent_call Hsolid.
  - intros Hsolid. specialize (Hsolid 3%Z ltac:(lia)). absent_call Hsolid.
Qed.

(** ** Attribute lookup (Eyes.cpp:32-54) *)

(** C4 (as amended): the 16-bit id 0x200 is not found by [get_flt], which
    finds exactly the ids 0x000 and 0x100..0x104; [get_color] takes an
    8-bit id and finds exactly 0, 1 and 2, so that every other 8-bit id is
    not found, while 0x200 passed to it is the id 0. *)
Theorem C4_unknown_attribute {Colour : Type} (e : Eyes.t Colour) :
  length (Eyes.emotions e) = 5%nat →
  Eyes.get_flt e 0x200 = None
  ∧ (∀ val, (0 ≤ val < 2 ^ 16)%Z →
       Eyes.get_flt e val = None ↔ (val ≠ 0x000 ∧ ¬ (0x100 ≤ val ≤ 0x104))%Z)
  ∧ (∀ val, (0 ≤ val < 2 ^ 8)%Z →
       Eyes.get_color val = None ↔ (val ≠ 0 ∧ val ≠ 1 ∧ val ≠ 2)%Z)
  ∧ (∀ val, Eyes.get_color val = Eyes.get_color (val mod 2 ^ 8))
  ∧ Eyes.get_color 0x200 = Eyes.get_color 0.
Proof.
  intros Hsize.
  assert (Hflt : ∀ val, (0 ≤ val < 2 ^ 16)%Z →
            Eyes.get_flt e val = None ↔ (val ≠ 0x000 ∧ ¬ (0x100 ≤ val ≤ 0x104))%Z).
  { intros val Hval. unfold Eyes.get_flt. rewrite Hsize, Z.mod_small by assumption.
    rewrite Z.geb_leb.
    destruct (Z.leb_spec 0 (val - 0x100)) as [Hlo | Hlo]; simpl.
    - destruct (Z.ltb_spec (val - 0x100) (Z.of_nat 5)) as [Hhi | Hhi].
      + split; [discriminate | lia].
      + destruct val; (split; [intros _; lia | try reflexivity; lia]).
    - destruct val; (split; [try discriminate; intros _; lia | try reflexivity; lia]). }
  split; [apply Hflt; lia |]. split; [exact Hflt |]. split; [| split].
  - intros val Hval. unfold Eyes.get_color. rewrite Z.mod_small by assumption.
    assert (Hcases : (val = 0 ∨ val = 1 ∨ val = 2 ∨ 3 ≤ val)%Z) by lia.
    destruct Hcases as [-> | [-> | [-> | Hbig]]];
      [split; [discriminate | lia] .. |].
    split; [lia | intros _].
    destruct val as [| [[q | q |] | [q | q |] |] | q]; (reflexivity || lia).
  - intros val. unfold Eyes.get_color. now rewrite Z.mod_mod by lia.
  - reflexivity.
Qed.

Lemma C4_unknown_attribute_witness :
  Eyes.get_flt (Eyes.new (Colour := rgba)) 0x200 = None
  ∧ Eyes.get_color 3 = None
  ∧ Eyes.get_color 0xFF = None.
Proof.
  destruct (C4_unknown_attribute (Eyes.new (Colour := rgba)) eq_refl)
    as (Hflt & _ & Hcolor & _).
  split; [exact Hflt |]. split; apply Hcolor; lia.
Defined.

(** C4, as stated, fails for [get_color]: its parameter is a [uint8_t], the
    argument 0x200 is passed as 0, and the call returns the address of
    [outer_color] and not a null pointer. *)
Lemma C4_get_color_0x200_is_outer_color :
  Eyes.get_color 0x200 = Some Eyes.outer_color_ref
  ∧ Eyes.get_color 0x200 ≠ None.
Proof. split; [reflexivity | discriminate]. Qed.

(** ** The scrolling text (MatrixString.cpp) *)

(** C10: [set_string] with a null pointer stores the empty string and
    touches no other member, and a [tick] with an empty stored string or
    with [|scroll_speed| <= 0.1] leaves [pos_x] as it was. *)
Theorem C10_matrix_string {Colour : Type} `{LEDColour Colour} :
  (∀ ms : MatrixString.t Colour,
     MatrixString.current_str (MatrixString.set_string None ms) = EmptyString
     ∧ MatrixString.pos_x (MatrixString.set_string None ms) = MatrixString.pos_x ms
     ∧ MatrixString.scroll_speed (MatrixString.set_string None ms)
       = MatrixString.scroll_speed ms)
  ∧ (∀ (matrix_width delta_t : float) (ms : MatrixString.t Colour),
       MatrixString.current_str ms = EmptyString
       ∨ fabsf (MatrixString.scroll_speed ms) <= 0.1 →
       MatrixString.pos_x (fst (MatrixString.tick matrix_width delta_t ms))
       = MatrixString.pos_x ms).
Proof.
  split.
  - intros ms. repeat split.
  - intros matrix_width delta_t ms Hidle.
    unfold MatrixString.tick, MatrixString.scroll. simpl.
    destruct Hidle as [Hempty | Hslow].
    + rewrite Hempty. simpl. now rewrite andb_false_r.
    + apply flt_gt_false in Hslow. now rewrite Hslow.
Qed.

Lemma C10_matrix_string_witness :
  MatrixString.pos_x (fst (MatrixString.tick 64 0.02 (sample_text EmptyString 12))) = 40
  ∧ MatrixString.pos_x (fst (MatrixString.tick 64 0.02 (sample_text "AB" (-0.1)))) = 40.
Proof.
  destruct (@C10_matrix_string rgba rgba_colour) as [_ Hidle].
  split.
  - apply (Hidle 64 0.02 (sample_text EmptyString 12)). left. reflexivity.
  - apply (Hidle 64 0.02 (sample_text "AB" (-0.1))). right. discriminate.
Defined.

(** ** The blend (Eyes.cpp:112-124) *)

Section AddShapes.
Variables (to_add : eye_shape) (fact : float).

Lemma add_entry_Some (i : nat) (source : eye_shape) (a b : float) :
  source !! i = Some a →
  to_add !! i = Some b →
  add_entry to_add fact i source = Some (<[i := a + b * fact]> source).
Proof.
  intros Ha Hb. unfold add_entry. rewrite Ha, Hb. simpl.
  apply store_Some. now apply lookup_lt_Some in Ha.
Qed.

(** The loop of [add_shapes] over the entries [first .. first + count - 1]. *)
Lemma add_entries (count : nat) : ∀ (first : nat) (source : eye_shape),
  (first + count ≤ length source)%nat →
  (length source ≤ length to_add)%nat →
  ∃ added,
    for_each (seq first count) (add_entry to_add fact) source = Some added
    ∧ length added = length source
    ∧ (∀ i a b, (first ≤ i < first + count)%nat →
         source !! i = Some a → to_add !! i = Some b →
         added !! i = Some (a + b * fact))
    ∧ (∀ j, (j < first ∨ first + count ≤ j)%nat → added !! j = source !! j).
Proof.
  induction count as [| count IH]; intros first source Hcount Hsize.
  - exists source. simpl. repeat split; try reflexivity; intros; lia.
  - destruct (lookup_lt_is_Some_2 source first) as [a Ha]; [lia |].
    destruct (lookup_lt_is_Some_2 to_add first) as [b Hb]; [lia |].
    cbn [seq for_each]. rewrite (add_entry_Some _ _ _ _ Ha Hb). simpl.
    destruct (IH (S first) (<[first := a + b * fact]> source))
      as (added & Hrun & Hlength & Hnew & Hold).
    { rewrite length_insert. lia. }
    { rewrite length_insert. lia. }
    rewrite length_insert in Hlength.
    exists added. split; [exact Hrun |]. split; [exact Hlength |]. split.
    + intros i a' b' Hi Ha' Hb'.
      destruct (decide (i = first)) as [-> | Hne].
      * rewrite Hold by lia. rewrite list_lookup_insert_eq by lia. congruence.
      * apply Hnew; [lia | | assumption].
        rewrite list_lookup_insert_ne by lia. assumption.
    + intros j Hj. rewrite Hold by lia. apply list_lookup_insert_ne. lia.
Qed.

(** [add_shapes] adds [to_add] scaled by [applied_fact fact]: by [fact]
    itself from 0.1 on, and not at all below. *)
Lemma add_shapes_applied (source : eye_shape) :
  (length source ≤ length to_add)%nat →
  ∃ added,
    add_shapes source to_add fact = Some added
    ∧ length added = length source
    ∧ ∀ i a b, source !! i = Some a → to_add !! i = Some b →
        ∃ v, added !! i = Some v ∧ v == a + b * Eyes.applied_fact fact.
Proof.
  intros Hsize. unfold add_shapes, Eyes.applied_fact.
  destruct (flt_lt fact 0.1).
  - exists source. repeat split. intros i a b Ha _. exists a. split; [exact Ha | ring].
  - rewrite loop_indices_unit.
    destruct (add_entries (length source) 0 source) as (added & Hrun & Hlength & Hnew & _);
      [lia | assumption |].
    exists added. split; [exact Hrun |]. split; [exact Hlength |].
    intros i a b Ha Hb. exists (a + b * fact). split; [| reflexivity].
    apply Hnew; [| assumption | assumption].
    apply lookup_lt_Some in Ha. lia.
Qed.

End AddShapes.

Lemma Qsum_fmap_ext {A : Type} (f g : A → float) (l : list A) :
  (∀ x, x ∈ l → f x == g x) → Qsum (f <$> l) == Qsum (g <$> l).
Proof.
  induction l as [| x l IH]; intros Hfg; [reflexivity |].
  change (f x + Qsum (f <$> l) == g x + Qsum (g <$> l)).
  rewrite (Hfg x) by left. rewrite IH; [reflexivity |].
  intros y Hy. apply Hfg. now right.
Qed.

Lemma fold_left_Qsum {A : Type} (f : A → float) (l : list A) : ∀ acc,
  fold_left (λ acc x, acc + f x) l acc == acc + Qsum (f <$> l).
Proof.
  induction l as [| x l IH]; intros acc.
  - change (acc == acc + 0). ring.
  - change (fold_left (λ acc x, acc + f x) l (acc + f x)
            == acc + (f x + Qsum (f <$> l))).
    rewrite IH. ring.
Qed.

Lemma expression_sum_clamped {Colour : Type} (e : Eyes.t Colour) :
  Eyes.expression_sum e
  == Qsum ((λ shape, std_max (Eyes.expressiveness shape) 0) <$> Eyes.emotions e).
Proof.
  unfold Eyes.expression_sum.
  rewrite (fold_left_Qsum (λ shape, std_max (Eyes.expressiveness shape) 0)).
  apply Qplus_0_l.
Qed.

(** ** One frame (Eyes.cpp:108-136) *)

Lemma calculate_blink_total (synch_time : float) (total_eye : eye_shape) :
  length total_eye = EYE_SHAPE_SIZE →
  ∃ blinked,
    Eyes.calculate_blink synch_time total_eye = Some blinked
    ∧ length blinked = EYE_SHAPE_SIZE.
Proof.
  intros Hlen. unfold Eyes.calculate_blink.
  set (close_factor := Eyes.eye_close_factor synch_time).
  destruct (flt_gt close_factor 0); [| eauto].
  rewrite Hlen, loop_indices_columns.
  destruct (blink_columns (1 - 0.7 * close_factor) (0.7 * close_factor)
              (0.3 * close_factor) (1 - 0.7 * close_factor) 11 0 total_eye)
    as (blinked & Hrun & Hlength & _).
  { rewrite Hlen. unfold EYE_SHAPE_SIZE. lia. }
  exists blinked. split; [exact Hrun | congruence].
Qed.

Section Frame.
Context {Colour : Type} `{LEDColour Colour} `{EyeTemplates}.

Lemma add_emotions_total (e : Eyes.t Colour) (shapes : list Eyes.eye_shape_def) :
  ∀ total_eye,
    (∀ shape, shape ∈ shapes → length (Eyes.shape shape) = length total_eye) →
    is_Some (Eyes.add_emotions e shapes total_eye).
Proof.
  induction shapes as [| shape0 shapes IH]; intros total_eye Hsized; simpl; [eauto |].
  destruct (add_shapes_applied (Eyes.shape shape0) (Eyes.emotion_fact e shape0) total_eye)
    as (added & -> & Hlength & _).
  { rewrite (Hsized shape0) by left. reflexivity. }
  simpl. apply IH. intros shape Hshape. rewrite Hlength. apply Hsized. now right.
Qed.

Lemma final_shape_total (synch_time : float) (e : Eyes.t Colour) :
  Eyes.templates_sized e →
  ∃ total_eye,
    Eyes.final_shape synch_time e = Some total_eye
    ∧ length total_eye = EYE_SHAPE_SIZE.
Proof.
  intros [Hrelaxed Hshapes]. unfold Eyes.final_shape.
  assert (Hblend : is_Some (Eyes.blend e)).
  { unfold Eyes.blend.
    destruct (add_shapes_applied relaxed_eye (Eyes.relaxed_fact e) Eyes.closed_eye)
      as (added & -> & Hlength & _).
    { rewrite Hrelaxed. reflexivity. }
    simpl. apply add_emotions_total. intros shape Hshape.
    rewrite Hlength. now apply Hshapes. }
  destruct Hblend as [blended Hblend]. rewrite Hblend. simpl.
  destruct (calculate_blink_total synch_time blended (blend_length e blended Hblend))
    as (blinked & -> & Hblinked).
  simpl. now apply clip_iris_total.
Qed.

(** [tick] reads [emotions], [iris_x], [outer_color] and [blush_colour]
    only. *)
Lemma final_shape_reads (synch_time : float) (e e' : Eyes.t Colour) :
  Eyes.emotions e' = Eyes.emotions e →
  Eyes.iris_x e' = Eyes.iris_x e →
  Eyes.final_shape synch_time e' = Eyes.final_shape synch_time e.
Proof.
  intros Hemotions Hiris.
  unfold Eyes.final_shape, Eyes.blend, Eyes.relaxed_fact.
  assert (Hsum : Eyes.expression_sum e' = Eyes.expression_sum e).
  { unfold Eyes.expression_sum. now rewrite Hemotions. }
  assert (Hadd : ∀ shapes total_eye,
            Eyes.add_emotions e' shapes total_eye = Eyes.add_emotions e shapes total_eye).
  { induction shapes as [| shape0 shapes IH]; intros total_eye; simpl; [reflexivity |].
    unfold Eyes.emotion_fact. rewrite Hsum.
    destruct (add_shapes total_eye _ _); simpl; [apply IH | reflexivity]. }
  rewrite Hsum, Hemotions, Hiris.
  destruct (add_shapes Eyes.closed_eye relaxed_eye _) as [added |]; simpl; [| reflexivity].
  now rewrite Hadd.
Qed.

Lemma draw_total_eye_reads (e e' : Eyes.t Colour) (total_eye : eye_shape) :
  Eyes.outer_color e' = Eyes.outer_color e →
  Eyes.draw_total_eye e' total_eye = Eyes.draw_total_eye e total_eye.
Proof.
  intros Houter. unfold Eyes.draw_total_eye, Eyes.draw_column. now rewrite Houter.
Qed.

Lemma draw_blush_reads (e e' : Eyes.t Colour) :
  Eyes.blush_colour e' = Eyes.blush_colour e →
  Eyes.draw_blush e' = Eyes.draw_blush e.
Proof. intros Hblush. unfold Eyes.draw_blush. now rewrite Hblush. Qed.

End Frame.

(** C9 (as amended): [tick] returns the element with every member as it
    was and makes its calls on the matrix only; the calls are a function of
    the clock, the emotions with their weights, the iris position,
    [outer_color] and [blush_colour]: an element that agrees on these makes
    the same calls at the same clock, whatever [delta_t], [inner_color] and
    [offset] are. *)
Theorem C9_tick_frame {Colour : Type} `{LEDColour Colour} `{EyeTemplates}
    (synch_time delta_t : float) (e : Eyes.t Colour) :
  Eyes.templates_sized e →
  ∃ calls,
    Eyes.tick synch_time delta_t e = Some (e, calls)
    ∧ ∀ (delta_t' : float) (e' : Eyes.t Colour),
        Eyes.emotions e' = Eyes.emotions e →
        Eyes.iris_x e' = Eyes.iris_x e →
        Eyes.outer_color e' = Eyes.outer_color e →
        Eyes.blush_colour e' = Eyes.blush_colour e →
        Eyes.tick synch_time delta_t' e' = Some (e', calls).
Proof.
  intros Hsized.
  destruct (final_shape_total synch_time e Hsized) as (total_eye & Hshape & Hlen).
  destruct (draw_total_eye_total e total_eye Hlen) as [eye Hdraw].
  exists (eye ++ Eyes.draw_blush e). split.
  - unfold Eyes.tick. rewrite Hshape. simpl. rewrite Hdraw. reflexivity.
  - intros delta_t' e' Hemotions Hiris Houter Hblush. unfold Eyes.tick.
    rewrite (final_shape_reads synch_time e e' Hemotions Hiris), Hshape. simpl.
    rewrite (draw_total_eye_reads e e' total_eye Houter), Hdraw. simpl.
    now rewrite (draw_blush_reads e e' Hblush).
Qed.

Lemma sample_eyes_sized (w : list float) (iris : float) :
  Eyes.templates_sized (sample_eyes w iris).
Proof.
  split; [reflexivity |]. intros shape Hshape.
  unfold sample_eyes in Hshape. cbn [Eyes.emotions] in Hshape.
  apply elem_of_lookup_zip_with in Hshape as (i & s & x & -> & Hs & _).
  do 5 (destruct i as [| i]; [injection Hs as <-; reflexivity |]). discriminate.
Qed.

Lemma C9_tick_frame_witness :
  ∃ calls,
    Eyes.tick 4.95 0.02 (sample_eyes [0; 1; 0; 0; 0] 3)
    = Some (sample_eyes [0; 1; 0; 0; 0] 3, calls)
    ∧ Eyes.tick 4.95 0.5
        (Eyes.write_colour (sample_eyes [0; 1; 0; 0; 0] 3) Eyes.inner_color_ref PINK)
      = Some (Eyes.write_colour (sample_eyes [0; 1; 0; 0; 0] 3) Eyes.inner_color_ref PINK,
              calls).
Proof.
  destruct (C9_tick_frame 4.95 0.02 (sample_eyes [0; 1; 0; 0; 0] 3)
              (sample_eyes_sized _ _)) as (calls & Htick & Hsame).
  exists calls. split; [exact Htick |].
  apply Hsame; reflexivity.
Defined.

(** C9, as stated, fails in its last part: two elements with the same
    weights and iris position make different calls at the same clock when
    their [outer_color] differs. *)
Lemma C9_calls_depend_on_outer_color :
  Eyes.emotions (Eyes.write_colour (sample_eyes [0; 1; 0; 0; 0] 3)
                   Eyes.outer_color_ref (rgba_of_rgb 0x00FF00))
  = Eyes.emotions (sample_eyes [0; 1; 0; 0; 0] 3)
  ∧ Eyes.iris_x (Eyes.write_colour (sample_eyes [0; 1; 0; 0; 0] 3)
                   Eyes.outer_color_ref (rgba_of_rgb 0x00FF00))
    = Eyes.iris_x (sample_eyes [0; 1; 0; 0; 0] 3)
  ∧ snd <$> Eyes.tick 0 0.02 (Eyes.write_colour (sample_eyes [0; 1; 0; 0; 0] 3)
                                Eyes.outer_color_ref (rgba_of_rgb 0x00FF00))
    ≠ snd <$> Eyes.tick 0 0.02 (sample_eyes [0; 1; 0; 0; 0] 3).
Proof.
  split; [reflexivity |]. split; [reflexivity |].
  intros Hsame. apply (f_equal (λ calls, calls ≫= head)) in Hsame.
  vm_compute in Hsame. discriminate.
Qed.

(** * Further properties of the two elements *)

(** ** The attributes of [Eyes] *)

(** The ids at which [get_flt] finds a member, and the member it finds. *)
Lemma get_flt_Some {Colour : Type} (e : Eyes.t Colour) (val : Z) (r : Eyes.flt_ref) :
  (0 ≤ val < 2 ^ 16)%Z →
  Eyes.get_flt e val = Some r
  ↔ (val = 0%Z ∧ r = Eyes.iris_x_ref)
    ∨ ((0x100 ≤ val < 0x100 + Z.of_nat (length (Eyes.emotions e)))%Z
       ∧ r = Eyes.expressiveness_of (Z.to_nat (val - 0x100))).
Proof.
  intros Hval. unfold Eyes.get_flt. rewrite Z.mod_small by assumption.
  rewrite Z.geb_leb.
  destruct (Z.leb_spec 0 (val - 0x100)) as [Hlo | Hlo]; simpl.
  - destruct (Z.ltb_spec (val - 0x100) (Z.of_nat (length (Eyes.emotions e))))
      as [Hhi | Hhi].
    + split.
      * intros [= <-]. right. split; [lia | reflexivity].
      * intros [[-> _] | [_ ->]]; [lia | reflexivity].
    + destruct val as [| p | p]; try lia.
      split; [discriminate | intros [[? _] | [? _]]; lia].
  - destruct val as [| p | p].
    + split; [intros [= <-]; now left | intros [[_ ->] | [? _]]; [reflexivity | lia]].
    + split; [discriminate | intros [[? _] | [? _]]; lia].
    + lia.
Qed.

(** A pointer returned by [get_flt] points to a member. *)
Lemma get_flt_live {Colour : Type} (e : Eyes.t Colour) (val : Z) (r : Eyes.flt_ref) :
  Eyes.get_flt e val = Some r → is_Some (Eyes.read_flt e r).
Proof.
  intros Hfound.
  assert (Hwrap : Eyes.get_flt e (val mod 2 ^ 16) = Some r).
  { unfold Eyes.get_flt in *. now rewrite Z.mod_mod by lia. }
  apply get_flt_Some in Hwrap; [| apply Z.mod_pos_bound; lia].
  destruct Hwrap as [[_ ->] | [Hwindow ->]]; simpl; [eauto |].
  destruct (lookup_lt_is_Some_2 (Eyes.emotions e) (Z.to_nat (val mod 2 ^ 16 - 0x100)))
    as [shape ->]; [lia | simpl; eauto].
Qed.

(** X1: [get_flt] resolves the id 0x000 to [iris_x] and the id 0x100 + k
    to the weight of the k-th emotion, in the order of the constructor; a
    pointer it returns always points to a member; two different 16-bit ids
    never resolve to the same member. *)
Theorem X1_get_flt_resolves {Colour : Type} (e : Eyes.t Colour) :
  Eyes.get_flt e 0x000 = Some Eyes.iris_x_ref
  ∧ (∀ k : nat, (k < length (Eyes.emotions e))%nat → (0x100 + Z.of_nat k < 2 ^ 16)%Z →
       Eyes.get_flt e (0x100 + Z.of_nat k) = Some (Eyes.expressiveness_of k)
       ∧ Eyes.read_flt e (Eyes.expressiveness_of k)
         = Eyes.expressiveness <$> Eyes.emotions e !! k)
  ∧ (∀ val r, Eyes.get_flt e val = Some r → is_Some (Eyes.read_flt e r))
  ∧ (∀ val1 val2 r, (0 ≤ val1 < 2 ^ 16)%Z → (0 ≤ val2 < 2 ^ 16)%Z →
       Eyes.get_flt e val1 = Some r → Eyes.get_flt e val2 = Some r → val1 = val2).
Proof.
  split; [reflexivity |]. split; [| split].
  - intros k Hk Hid. split; [| reflexivity].
    apply get_flt_Some; [lia |]. right. split; [lia |]. f_equal. lia.
  - apply get_flt_live.
  - intros val1 val2 r Hval1 Hval2 Hfound1 Hfound2.
    apply get_flt_Some in Hfound1, Hfound2; try assumption.
    destruct Hfound1 as [[-> ->] | [Hwindow1 ->]],
             Hfound2 as [[-> Heq] | [Hwindow2 Heq]];
      try reflexivity; try discriminate.
    injection Heq as Heq. lia.
Qed.

(** X3: [get_color] resolves the 8-bit ids 0, 1 and 2 to three different
    members, [outer_color], [inner_color] and [blush_colour]; it depends on
    the low eight bits of its argument only; a write through a pointer it
    returns is read back through it and changes no other colour and no
    float member. *)
Theorem X3_get_color_resolves {Colour : Type} (e : Eyes.t Colour) :
  (∀ val1 val2 r, (0 ≤ val1 < 2 ^ 8)%Z → (0 ≤ val2 < 2 ^ 8)%Z →
     Eyes.get_color val1 = Some r → Eyes.get_color val2 = Some r → val1 = val2)
  ∧ (∀ val, Eyes.get_color (val + 2 ^ 8) = Eyes.get_color val)
  ∧ Eyes.read_colour e <$> Eyes.get_color 0 = Some (Eyes.outer_color e)
  ∧ Eyes.read_colour e <$> Eyes.get_color 1 = Some (Eyes.inner_color e)
  ∧ Eyes.read_colour e <$> Eyes.get_color 2 = Some (Eyes.blush_colour e)
  ∧ (∀ r c, Eyes.read_colour (Eyes.write_colour e r c) r = c
       ∧ (∀ r', r' ≠ r →
            Eyes.read_colour (Eyes.write_colour e r c) r' = Eyes.read_colour e r')
       ∧ (∀ f, Eyes.read_flt (Eyes.write_colour e r c) f = Eyes.read_flt e f)).
Proof.
  assert (Hfound : ∀ val r, (0 ≤ val < 2 ^ 8)%Z → Eyes.get_color val = Some r →
            (val = 0 ∧ r = Eyes.outer_color_ref
             ∨ val = 1 ∧ r = Eyes.inner_color_ref
             ∨ val = 2 ∧ r = Eyes.blush_colour_ref)%Z).
  { intros val r Hval. unfold Eyes.get_color. rewrite Z.mod_small by assumption.
    assert (Hcases : (val = 0 ∨ val = 1 ∨ val = 2 ∨ 3 ≤ val)%Z) by lia.
    destruct Hcases as [-> | [-> | [-> | Hbig]]]; [intros [= <-]; tauto .. |].
    destruct val as [| [[q | q |] | [q | q |] |] | q]; (discriminate || lia). }
  split; [| split; [| repeat split]].
  - intros val1 val2 r Hval1 Hval2 Hr1 Hr2.
    apply Hfound in Hr1, Hr2; try assumption.
    destruct Hr1 as [[-> ->] | [[-> ->] | [-> ->]]],
             Hr2 as [[-> Heq] | [[-> Heq] | [-> Heq]]];
      first [reflexivity | discriminate].
  - intros val. unfold Eyes.get_color.
    now rewrite <- (Z.mul_1_l (2 ^ 8)), Z.mod_add by lia.
  - now destruct r.
  - intros r' Hne. destruct r, r'; first [reflexivity | congruence].
  - intros f. now destruct r, f.
Qed.

(** ** The factors of the blend *)

Lemma Qsum_nonneg {A : Type} (f : A → float) (l : list A) :
  (∀ x, x ∈ l → 0 <= f x) → 0 <= Qsum (f <$> l).
Proof.
  induction l as [| x l IH]; intros Hf.
  - apply Qle_refl.
  - change (0 <= f x + Qsum (f <$> l)).
    assert (0 <= f x) by (apply Hf; left).
    assert (0 <= Qsum (f <$> l)) by (apply IH; intros y Hy; apply Hf; now right).
    lra.
Qed.

Lemma Qsum_elem_le {A : Type} (f : A → float) (l : list A) (x : A) :
  (∀ y, y ∈ l → 0 <= f y) → x ∈ l → f x <= Qsum (f <$> l).
Proof.
  induction l as [| y l IH]; intros Hf Hx; [inversion Hx |].
  change (f x <= f y + Qsum (f <$> l)).
  assert (0 <= f y) by (apply Hf; left).
  assert (0 <= Qsum (f <$> l)) by (apply Qsum_nonneg; intros z Hz; apply Hf; now right).
  apply elem_of_cons in Hx as [-> | Hx]; [lra |].
  assert (f x <= Qsum (f <$> l)) by (apply IH; [intros z Hz; apply Hf; now right | exact Hx]).
  lra.
Qed.

Lemma Qsum_zero {A : Type} (l : list A) : Qsum ((λ _, 0) <$> l) == 0.
Proof.
  induction l as [| x l IH]; [reflexivity |].
  change (0 + Qsum ((λ _, 0) <$> l) == 0). rewrite IH. reflexivity.
Qed.

Lemma std_max_0_nonneg (w : float) : 0 <= std_max w 0.
Proof. destruct (std_max_bounds w 0) as (_ & Hge & _). exact Hge. Qed.

Lemma expression_sum_nonneg {Colour : Type} (e : Eyes.t Colour) :
  0 <= Eyes.expression_sum e.
Proof.
  rewrite expression_sum_clamped. apply Qsum_nonneg.
  intros shape _. apply std_max_0_nonneg.
Qed.

Lemma expression_sum_ge_weight {Colour : Type} (e : Eyes.t Colour)
    (shape : Eyes.eye_shape_def) :
  shape ∈ Eyes.emotions e → Eyes.expressiveness shape <= Eyes.expression_sum e.
Proof.
  intros Hshape. rewrite expression_sum_clamped.
  apply Qle_trans with (std_max (Eyes.expressiveness shape) 0).
  - destruct (std_max_bounds (Eyes.expressiveness shape) 0) as (Hge & _). exact Hge.
  - apply (Qsum_elem_le (λ shape, std_max (Eyes.expressiveness shape) 0));
      [intros y _; apply std_max_0_nonneg | exact Hshape].
Qed.

(** X4: whatever the weights are, no template is blended in with a factor
    above 1: the factor of the relaxed template lies between 0 and 1, the
    factor of an emotion is at most 1 and is not negative when the weight
    of the emotion is not. *)
Theorem X4_blend_facts_bounded {Colour : Type} (e : Eyes.t Colour) :
  0 <= Eyes.relaxed_fact e <= 1
  ∧ ∀ shape, shape ∈ Eyes.emotions e →
      Eyes.emotion_fact e shape <= 1
      ∧ (0 <= Eyes.expressiveness shape → 0 <= Eyes.emotion_fact e shape).
Proof.
  pose proof (expression_sum_nonneg e) as Hsum.
  split.
  - unfold Eyes.relaxed_fact.
    destruct (std_max_bounds 0 (1 - Eyes.expression_sum e)) as (Hge & _ & [Heq | Heq]);
      rewrite Heq in Hge |- *; split; lra.
  - intros shape Hshape. unfold Eyes.emotion_fact.
    pose proof (expression_sum_ge_weight e shape Hshape) as Hweight.
    destruct (std_max_bounds (Eyes.expression_sum e) 1) as (Hge_sum & Hge_1 & _).
    set (divisor := std_max (Eyes.expression_sum e) 1) in *.
    split.
    + apply Qle_shift_div_r; lra.
    + intros Hnonneg. apply Qle_shift_div_l; lra.
Qed.

Section BlendCases.
Context {Colour : Type} `{LEDColour Colour} `{EyeTemplates}.

(** Emotions whose factor is below 0.1 leave the shape as it is. *)
Lemma add_emotions_culled (e : Eyes.t Colour) (shapes : list Eyes.eye_shape_def)
    (total_eye : eye_shape) :
  (∀ shape, shape ∈ shapes → Eyes.emotion_fact e shape < 0.1) →
  Eyes.add_emotions e shapes total_eye = Some total_eye.
Proof.
  induction shapes as [| shape0 shapes IH]; intros Hsmall; simpl; [reflexivity |].
  unfold add_shapes.
  assert (Hcull : flt_lt (Eyes.emotion_fact e shape0) 0.1 = true)
    by (apply flt_lt_true, Hsmall; left).
  rewrite Hcull. simpl. apply IH. intros shape Hshape. apply Hsmall. now right.
Qed.

End BlendCases.

(** X5: while no emotion has a positive weight, as for a new element, the
    blend is the first shape of [tick] plus the relaxed template, entry by
    entry. *)
Theorem X5_blend_idle {Colour : Type} `{LEDColour Colour} `{EyeTemplates}
    (e : Eyes.t Colour) :
  length relaxed_eye = EYE_SHAPE_SIZE →
  (∀ shape, shape ∈ Eyes.emotions e → Eyes.expressiveness shape <= 0) →
  ∃ blended,
    Eyes.blend e = Some blended
    ∧ length blended = EYE_SHAPE_SIZE
    ∧ ∀ i base relaxed, Eyes.closed_eye !! i = Some base → relaxed_eye !! i = Some relaxed →
        ∃ v, blended !! i = Some v ∧ v == base + relaxed.
Proof.
  intros Hrelaxed Hidle.
  assert (Hsum : Eyes.expression_sum e == 0).
  { rewrite expression_sum_clamped.
    rewrite (Qsum_fmap_ext _ (λ _, 0)); [apply Qsum_zero |].
    intros shape Hshape. specialize (Hidle shape Hshape).
    destruct (std_max_bounds (Eyes.expressiveness shape) 0) as (_ & Hge & [Heq | Heq]);
      rewrite Heq in Hge |- *; lra. }
  assert (Hfact : Eyes.relaxed_fact e == 1).
  { unfold Eyes.relaxed_fact. rewrite std_max_r by lra. lra. }
  destruct (add_shapes_applied relaxed_eye (Eyes.relaxed_fact e) Eyes.closed_eye)
    as (added & Hadd & Hlength & Hentries); [rewrite Hrelaxed; reflexivity |].
  exists added. unfold Eyes.blend. rewrite Hadd. simpl. split; [| split].
  - apply add_emotions_culled. intros shape Hshape.
    pose proof (X4_bound := std_max_bounds (Eyes.expression_sum e) 1).
    destruct X4_bound as (_ & Hdivisor & _). unfold Eyes.emotion_fact.
    apply Qlt_shift_div_r; [lra |]. specialize (Hidle shape Hshape).
    set (divisor := std_max (Eyes.expression_sum e) 1) in *. lra.
  - rewrite Hlength. reflexivity.
  - intros i base relaxed Hbase Hrel.
    destruct (Hentries i base relaxed Hbase Hrel) as (v & Hv & Hvalue).
    exists v. split; [exact Hv |]. rewrite Hvalue.
    unfold Eyes.applied_fact.
    assert (Hkept : flt_lt (Eyes.relaxed_fact e) 0.1 = false) by (apply flt_lt_false; lra).
    rewrite Hkept, Hfact. ring.
Qed.

Lemma X5_blend_idle_witness :
  ∃ blended v,
    Eyes.blend (Eyes.new (Colour := rgba)) = Some blended
    ∧ blended !! 0%nat = Some v
    ∧ v == 2.01.
Proof.
  destruct (X5_blend_idle (Eyes.new (Colour := rgba))) as (blended & Hblend & _ & Hentries).
  - reflexivity.
  - intros shape Hshape. unfold Eyes.new in Hshape. simpl in Hshape.
    rewrite !elem_of_cons, elem_of_nil in Hshape.
    destruct Hshape as [-> | [-> | [-> | [-> | [-> | []]]]]]; discriminate.
  - destruct (Hentries 0%nat 0.01 2) as (v & Hv & Hvalue); [reflexivity | reflexivity |].
    exists blended, v. split; [exact Hblend |]. split; [exact Hv |].
    rewrite Hvalue. reflexivity.
Defined.

(** X6: once the clamped weights sum to 1 or more the relaxed template is
    not blended in at all: its factor [max(0, 1 - expression_sum)] is far
    below the 0.1 that [add_shapes] asks for, the call for it leaves every
    shape as it is, and the blend is made of the emotions alone, on top of
    the first shape of [tick]. *)
Theorem X6_blend_without_relaxed {Colour : Type} `{LEDColour Colour} `{EyeTemplates}
    (e : Eyes.t Colour) :
  1 <= Eyes.expression_sum e →
  (∀ total_eye, add_shapes total_eye relaxed_eye (Eyes.relaxed_fact e) = Some total_eye)
  ∧ Eyes.blend e = Eyes.add_emotions e (Eyes.emotions e) Eyes.closed_eye.
Proof.
  intros Hsum.
  assert (Hfact : Eyes.relaxed_fact e = 0).
  { unfold Eyes.relaxed_fact. apply std_max_l. lra. }
  split.
  - intros total_eye. rewrite Hfact. reflexivity.
  - unfold Eyes.blend, add_shapes. rewrite Hfact. reflexivity.
Qed.

Lemma X6_blend_without_relaxed_witness :
  Eyes.blend (sample_eyes [0.75; 0.5; 0; 0; 0] 3)
  = Eyes.add_emotions (sample_eyes [0.75; 0.5; 0; 0; 0] 3)
      (Eyes.emotions (sample_eyes [0.75; 0.5; 0; 0; 0] 3)) Eyes.closed_eye.
Proof.
  apply (X6_blend_without_relaxed (sample_eyes [0.75; 0.5; 0; 0; 0] 3)). discriminate.
Defined.

(** ** The scales that reach the blended shape *)



Section BlendOne.
Context {Colour : Type} `{LEDColour Colour} `{EyeTemplates}.




End BlendOne.




(** ** When the blink acts *)

Lemma truncf_nonpos (x : Q) : x <= 0 → truncf x = Qceiling x.
Proof.
  destruct x as [n d]. unfold Qle, truncf, Qceiling, Qfloor. simpl. intros Hn.
  rewrite <- (Z.opp_involutive n) at 1. rewrite Z.quot_opp_l by lia.
  f_equal. apply Z.quot_div_nonneg; lia.
Qed.

(** The remainder of a clock that is not positive is not positive. *)
Lemma fmodf_10_nonpos (clock : Q) : clock <= 0 → fmodf clock 10 <= 0.
Proof.
  intros Hclock. unfold fmodf.
  assert (Hdiv : clock / 10 <= 0).
  { apply Qle_shift_div_r; [reflexivity | lra]. }
  rewrite truncf_nonpos by assumption.
  pose proof (Qle_ceiling (clock / 10)) as Hceil.
  assert (Hq : clock == 10 * (clock / 10)) by (field).
  set (n := inject_Z (Qceiling (clock / 10))) in *.
  set (q := clock / 10) in *. lra.
Qed.

(** X7: the blink acts only while the phase [fmodf clock 10] of the clock
    is less than 13/150 away from 5; in particular it never acts at a clock
    that is zero or negative, whose phase is not positive. *)
Theorem X7_blink_window (clock : Q) :
  (Eyes.eye_close_factor clock <= 0 ↔ (13 # 150) <= Qabs (fmodf clock 10 - 5))
  ∧ ((13 # 150) <= Qabs (fmodf clock 10 - 5) →
     ∀ total_eye, Eyes.calculate_blink clock total_eye = Some total_eye)
  ∧ (clock <= 0 → ∀ total_eye, Eyes.calculate_blink clock total_eye = Some total_eye).
Proof.
  assert (Hiff : Eyes.eye_close_factor clock <= 0
                 ↔ (13 # 150) <= Qabs (fmodf clock 10 - 5)).
  { unfold Eyes.eye_close_factor, fabsf.
    set (distance := Qabs (fmodf clock 10 - 5)). split; intros Hle; lra. }
  split; [exact Hiff |]. split.
  - intros Hfar total_eye. apply calculate_blink_skipped. now apply Hiff.
  - intros Hclock total_eye. apply calculate_blink_skipped, Hiff.
    pose proof (fmodf_10_nonpos clock Hclock) as Hphase.
    rewrite Qabs_neg by lra. lra.
Qed.

Lemma X7_blink_window_witness :
  Eyes.calculate_blink 4.9 (uniform_eye 2 6) = Some (uniform_eye 2 6)
  ∧ Eyes.calculate_blink (-5) (uniform_eye 2 6) = Some (uniform_eye 2 6).
Proof.
  destruct (X7_blink_window 4.9) as (_ & Hfar & _).
  destruct (X7_blink_window (-5)) as (_ & _ & Hneg).
  split; [apply Hfar | apply Hneg]; discriminate.
Defined.

(** X8: from clock 0 on the blink factor repeats every ten time units. *)
Theorem X8_blink_period (clock : Q) :
  0 <= clock →
  fmodf (clock + 10) 10 == fmodf clock 10
  ∧ Eyes.eye_close_factor (clock + 10) == Eyes.eye_close_factor clock.
Proof.
  intros Hclock.
  assert (Hphase : fmodf (clock + 10) 10 == fmodf clock 10).
  { unfold fmodf.
    assert (Hdiv : 0 <= clock / 10) by (apply Qle_shift_div_l; [reflexivity | lra]).
    assert (Hshift : (clock + 10) / 10 == clock / 10 + 1) by (field).
    rewrite (truncf_proper _ _ Hshift), !truncf_nonneg by lra.
    pose proof (Qfloor_le (clock / 10)) as Hlo.
    pose proof (Qlt_floor (clock / 10)) as Hhi.
    rewrite inject_Z_plus in Hhi. change (inject_Z 1) with 1 in Hhi.
    rewrite (Qfloor_unique (clock / 10 + 1) (Qfloor (clock / 10) + 1)).
    - rewrite inject_Z_plus. change (inject_Z 1) with 1. ring.
    - rewrite inject_Z_plus. change (inject_Z 1) with 1. lra.
    - rewrite !inject_Z_plus. change (inject_Z 1) with 1. lra. }
  split; [exact Hphase |].
  unfold Eyes.eye_close_factor, fabsf. now rewrite Hphase.
Qed.

Lemma X8_blink_period_witness :
  Eyes.eye_close_factor (4.98 + 10) == Eyes.eye_close_factor 4.98.
Proof. apply (X8_blink_period 4.98). discriminate. Defined.

(** ** The closed eye *)





(** X11: the iris step is idempotent: applied to its own result it changes
    nothing. *)
Theorem X11_clip_iris_idempotent (iris_position : float) (total_eye : eye_shape) :
  length total_eye = EYE_SHAPE_SIZE →
  ∃ clipped,
    Eyes.clip_iris iris_position total_eye = Some clipped
    ∧ Eyes.clip_iris iris_position clipped = Some clipped.
Proof.
  intros Hlen.
  destruct (Z_lt_dec (roundf iris_position) 0) as [Hneg | Hnonneg].
  { exists total_eye. rewrite clip_iris_out_of_range by (assumption || now left). auto. }
  destruct (Z_lt_dec 10 (roundf iris_position)) as [Hbig | Hsmall].
  { exists total_eye. rewrite clip_iris_out_of_range by (assumption || now right). auto. }
  destruct (clip_iris_in_range iris_position total_eye Hlen)
    as (top & bottom & Htop & Hbottom & Hclip); [lia |].
  set (col := Z.to_nat (roundf iris_position)) in *.
  pose proof (lookup_lt_Some _ _ _ Htop) as Hin.
  eexists. split; [exact Hclip |].
  destruct (clip_iris_in_range iris_position
              (<[(col * 2)%nat := std_max top (bottom - 0.1)]> total_eye))
    as (top' & bottom' & Htop' & Hbottom' & ->);
    [now rewrite length_insert | lia |].
  fold col in Htop', Hbottom' |- *.
  rewrite list_lookup_insert_eq in Htop' by assumption.
  rewrite list_lookup_insert_ne, Hbottom in Hbottom' by lia.
  injection Htop' as <-. injection Hbottom' as <-.
  destruct (std_max_bounds top (bottom - 0.1)) as (_ & Hge & _).
  rewrite (std_max_l _ _ Hge). now rewrite list_insert_insert_eq.
Qed.

Lemma X11_clip_iris_idempotent_witness :
  ∃ clipped,
    Eyes.clip_iris 3 (uniform_eye 1 4) = Some clipped
    ∧ Eyes.clip_iris 3 clipped = Some clipped.
Proof. apply (X11_clip_iris_idempotent 3 (uniform_eye 1 4)). reflexivity. Defined.

(** ** What the rasteriser paints *)

Lemma int_range_elem (lo hi y : Z) : y ∈ int_range lo hi ↔ (lo ≤ y < hi)%Z.
Proof.
  unfold int_range. rewrite list_elem_of_fmap. split.
  - intros (k & -> & Hk). apply elem_of_seq in Hk. lia.
  - intros Hy. exists (Z.to_nat (y - lo)). split; [lia |].
    apply elem_of_seq. lia.
Qed.

Lemma floorf_le_ceilf (x : float) : (floorf x ≤ ceilf x)%Z.
Proof.
  unfold floorf, ceilf. rewrite Zle_Qle.
  apply Qle_trans with x; [apply Qfloor_le | apply Qle_ceiling].
Qed.

(** X12: a column that starts and ends in the same pixel row
    ([top < bottom] with equal floors), as the iris notch column does, gets
    no solid row; both boundary calls of [draw_total_eye] go to one and the
    same pixel, first with coverage [1 - frac top], then with coverage
    [frac bottom]. *)
Theorem X12_thin_column_painted_twice {Colour : Type} `{LEDColour Colour}
    (e : Eyes.t Colour) (total_eye : eye_shape) (column : nat) (top bottom : float) :
  length total_eye = EYE_SHAPE_SIZE →
  (column < 11)%nat →
  total_eye !! (column * 2)%nat = Some top →
  total_eye !! (column * 2 + 1)%nat = Some bottom →
  top < bottom →
  floorf top = floorf bottom →
  ∃ before after,
    Eyes.draw_total_eye e total_eye
    = Some (before
            ++ [ (Z.of_nat (column + 18), (floorf top + 1)%Z,
                  bMod (Eyes.outer_color e) (1 - fmodf top 1));
                 (Z.of_nat (column + 18), (floorf top + 1)%Z,
                  bMod (Eyes.outer_color e) (fmodf bottom 1)) ]
            ++ after)
    ∧ ∀ x y colour, (x, y, colour) ∈ before ++ after → x ≠ Z.of_nat (column + 18).
Proof.
  intros Hlen Hcolumn Htop Hbottom Horder Hrow.
  destruct (draw_total_eye_column e total_eye column Hlen Hcolumn)
    as (before & column_calls & after & Hdraw & Hcalls & Hother).
  exists before, after. split; [| exact Hother].
  rewrite Hdraw. do 3 f_equal.
  unfold Eyes.draw_column in Hcalls. rewrite Htop, Hbottom in Hcalls.
  cbn [mbind option_bind] in Hcalls.
  assert (Hopen : flt_ge top bottom = false).
  { apply not_true_iff_false. rewrite flt_ge_true. lra. }
  rewrite Hopen in Hcalls. unfold int_range in Hcalls.
  pose proof (floorf_le_ceilf top) as Hceil.
  replace (Z.to_nat (floorf bottom - ceilf top)) with 0%nat in Hcalls by lia.
  rewrite Nat.div_mul, <- Hrow in Hcalls by lia.
  injection Hcalls as <-. reflexivity.
Qed.

Lemma X12_thin_column_painted_twice_witness :
  ∃ before after,
    Eyes.draw_total_eye (sample_eyes [0; 0; 0; 0; 0] 3)
      (<[7%nat := 5.9]> (<[6%nat := 5.8]> (uniform_eye 2 6)))
    = Some (before
            ++ [ (21%Z, 6%Z, rgba_bMod (rgba_of_rgb 0x9900AA) (1 - fmodf 5.8 1));
                 (21%Z, 6%Z, rgba_bMod (rgba_of_rgb 0x9900AA) (fmodf 5.9 1)) ]
            ++ after).
Proof.
  destruct (X12_thin_column_painted_twice (sample_eyes [0; 0; 0; 0; 0] 3)
              (<[7%nat := 5.9]> (<[6%nat := 5.8]> (uniform_eye 2 6))) 3 5.8 5.9)
    as (before & after & Hdraw & _);
    [reflexivity | lia | reflexivity | reflexivity | reflexivity | reflexivity |].
  exists before, after. exact Hdraw.
Defined.

(** Where the calls for one column go. *)
Lemma draw_column_region {Colour : Type} `{LEDColour Colour}
    (e : Eyes.t Colour) (total_eye : eye_shape) (i : nat)
    (calls : list (set_colour_call Colour)) :
  Eyes.draw_column e total_eye i = Some calls →
  ∀ x y colour, (x, y, colour) ∈ calls →
    ∃ top bottom,
      total_eye !! i = Some top
      ∧ total_eye !! (i + 1)%nat = Some bottom
      ∧ top < bottom
      ∧ (floorf top + 1 ≤ y ≤ floorf bottom + 1)%Z
      ∧ (colour = Eyes.outer_color e
         ∨ ∃ coverage, colour = bMod (Eyes.outer_color e) coverage).
Proof.
  unfold Eyes.draw_column.
  destruct (total_eye !! i) as [top |]; simpl; [| discriminate].
  destruct (total_eye !! (i + 1)%nat) as [bottom |]; simpl; [| discriminate].
  destruct (flt_ge top bottom) eqn:Hopen; intros [= <-] x y colour Hin;
    [inversion Hin |].
  assert (Horder : top < bottom).
  { apply Qnot_le_lt. intros Hle. apply flt_ge_true in Hle. congruence. }
  assert (Hfloors : (floorf top ≤ floorf bottom)%Z).
  { apply Qfloor_resp_le. now apply Qlt_le_weak. }
  pose proof (floorf_le_ceilf top) as Hceil.
  exists top, bottom. do 3 (split; [first [reflexivity | assumption] |]).
  rewrite elem_of_app, list_elem_of_fmap in Hin.
  destruct Hin as [(y0 & Hcall & Hy0) | Hin].
  - apply int_range_elem in Hy0. injection Hcall as -> -> ->.
    split; [lia | now left].
  - rewrite !elem_of_cons, elem_of_nil in Hin.
    destruct Hin as [Hcall | [Hcall | []]]; injection Hcall as -> -> ->;
      (split; [lia | right; eauto]).
Qed.

(** X13: [draw_total_eye] paints in the matrix columns 18..28 only, each
    call in the matrix column of an open column of the shape, in a row
    from [floor(top) + 1] to [floor(bottom) + 1], and in [outer_color] or
    a brightness-modulated copy of it. *)
Theorem X13_draw_total_eye_region {Colour : Type} `{LEDColour Colour}
    (e : Eyes.t Colour) (total_eye : eye_shape) :
  length total_eye = EYE_SHAPE_SIZE →
  ∃ calls,
    Eyes.draw_total_eye e total_eye = Some calls
    ∧ ∀ x y colour, (x, y, colour) ∈ calls →
        (18 ≤ x ≤ 28)%Z
        ∧ ∃ column top bottom,
            x = Z.of_nat (column + 18)
            ∧ total_eye !! (column * 2)%nat = Some top
            ∧ total_eye !! (column * 2 + 1)%nat = Some bottom
            ∧ top < bottom
            ∧ (floorf top + 1 ≤ y ≤ floorf bottom + 1)%Z
            ∧ (colour = Eyes.outer_color e
               ∨ ∃ coverage, colour = bMod (Eyes.outer_color e) coverage).
Proof.
  intros Hlen.
  destruct (draw_total_eye_total e total_eye Hlen) as [calls Hdraw].
  exists calls. split; [exact Hdraw |].
  intros x y colour Hin.
  unfold Eyes.draw_total_eye in Hdraw. rewrite Hlen, loop_indices_columns in Hdraw.
  destruct (draw_loop_origin _ _ _ _ _ Hdraw _ Hin)
    as [Hnone | (i & column_calls & Hi & Hcalls & Hcall)]; [inversion Hnone |].
  apply list_elem_of_fmap in Hi as (column & -> & Hcolumn).
  apply elem_of_seq in Hcolumn.
  pose proof (draw_column_x _ _ _ _ Hcalls _ _ _ Hcall) as Hx.
  rewrite Nat.div_mul in Hx by lia.
  destruct (draw_column_region _ _ _ _ Hcalls _ _ _ Hcall)
    as (top & bottom & Htop & Hbottom & Horder & Hrows & Hcolour).
  split; [lia |]. exists column, top, bottom. auto 10.
Qed.

Lemma X13_draw_total_eye_region_witness :
  ∃ calls,
    Eyes.draw_total_eye (sample_eyes [0; 0; 0; 0; 0] 3) (uniform_eye 2.3 5.7) = Some calls
    ∧ ∀ x y colour, (x, y, colour) ∈ calls → (18 ≤ x ≤ 28)%Z.
Proof.
  destruct (X13_draw_total_eye_region (sample_eyes [0; 0; 0; 0; 0] 3)
              (uniform_eye 2.3 5.7) eq_refl) as (calls & Hdraw & Hregion).
  exists calls. split; [exact Hdraw |].
  intros x y colour Hin. apply (Hregion x y colour Hin).
Defined.

(** X14: [draw_blush] paints nothing while the alpha of [blush_colour] is
    below 0.1; from 0.1 on it paints fifteen different pixels, five in
    each of the matrix rows 9, 10 and 11, all within the matrix columns
    15..29 and all in [blush_colour], whatever the eye shape is. *)
Theorem X14_draw_blush {Colour : Type} `{LEDColour Colour} (e : Eyes.t Colour) :
  (alpha (Eyes.blush_colour e) < 0.1 → Eyes.draw_blush e = [])
  ∧ (0.1 <= alpha (Eyes.blush_colour e) →
     Eyes.draw_blush e
     = (λ position, (fst position, snd position, Eyes.blush_colour e)) <$>
         [ (17, 9); (20, 9); (23, 9); (26, 9); (29, 9);
           (16, 10); (19, 10); (22, 10); (25, 10); (28, 10);
           (15, 11); (18, 11); (21, 11); (24, 11); (27, 11) ]%Z
     ∧ length (Eyes.draw_blush e) = 15%nat
     ∧ NoDup (fst <$> Eyes.draw_blush e)
     ∧ ∀ x y colour, (x, y, colour) ∈ Eyes.draw_blush e →
         (15 ≤ x ≤ 29)%Z ∧ (9 ≤ y ≤ 11)%Z ∧ colour = Eyes.blush_colour e).
Proof.
  split.
  - intros Hfaint. unfold Eyes.draw_blush.
    apply flt_lt_true in Hfaint. now rewrite Hfaint.
  - intros Hvisible.
    assert (Hcalls : Eyes.draw_blush e
              = (λ position, (fst position, snd position, Eyes.blush_colour e)) <$>
                  [ (17, 9); (20, 9); (23, 9); (26, 9); (29, 9);
                    (16, 10); (19, 10); (22, 10); (25, 10); (28, 10);
                    (15, 11); (18, 11); (21, 11); (24, 11); (27, 11) ]%Z).
    { unfold Eyes.draw_blush. apply flt_lt_false in Hvisible. now rewrite Hvisible. }
    split; [exact Hcalls |]. rewrite Hcalls. split; [reflexivity |]. split.
    + cbn [fmap list_fmap fst].
      repeat (apply NoDup_cons_2;
              [rewrite ?elem_of_cons, elem_of_nil; intros Hdup;
               repeat (destruct Hdup as [Hdup | Hdup]); congruence |]).
      apply NoDup_nil_2.
    + intros x y colour Hin. cbn [fmap list_fmap fst snd] in Hin.
      rewrite !elem_of_cons, elem_of_nil in Hin.
      repeat (destruct Hin as [Hin | Hin]);
        first [ injection Hin as -> -> ->; repeat split; lia | destruct Hin ].
Qed.

Lemma X14_draw_blush_witness :
  length (Eyes.draw_blush (sample_eyes [0; 0; 0; 0; 0] 3)) = 15%nat
  ∧ Eyes.draw_blush
      (Eyes.write_colour (sample_eyes [0; 0; 0; 0; 0] 3) Eyes.blush_colour_ref
         {| red := 233; green := 30; blue := 99; alpha_channel := 0.05 |}) = [].
Proof.
  split.
  - apply (X14_draw_blush (sample_eyes [0; 0; 0; 0; 0] 3)). discriminate.
  - apply (X14_draw_blush
             (Eyes.write_colour (sample_eyes [0; 0; 0; 0; 0] 3) Eyes.blush_colour_ref
                {| red := 233; green := 30; blue := 99; alpha_channel := 0.05 |})).
    reflexivity.
Defined.

(** ** The attributes and the scrolling of [MatrixString] *)

(** X15: [MatrixString::get_flt] finds exactly the 16-bit ids 1..4, which
    resolve to four different members, [pos_x], [pos_y], [alignment] and
    [scroll_speed] (the id 0 is not a float of this element);
    [get_color] finds exactly the 8-bit id 0; a write through a float
    pointer is read back through it and changes no other member. *)
Theorem X15_matrix_string_attributes {Colour : Type} (ms : MatrixString.t Colour) :
  (∀ val, (0 ≤ val < 2 ^ 16)%Z → MatrixString.get_flt val = None ↔ ¬ (1 ≤ val ≤ 4)%Z)
  ∧ (∀ val1 val2 r, (0 ≤ val1 < 2 ^ 16)%Z → (0 ≤ val2 < 2 ^ 16)%Z →
       MatrixString.get_flt val1 = Some r → MatrixString.get_flt val2 = Some r →
       val1 = val2)
  ∧ MatrixString.read_flt ms <$> MatrixString.get_flt 1 = Some (MatrixString.pos_x ms)
  ∧ MatrixString.read_flt ms <$> MatrixString.get_flt 2 = Some (MatrixString.pos_y ms)
  ∧ MatrixString.read_flt ms <$> MatrixString.get_flt 3 = Some (MatrixString.alignment ms)
  ∧ MatrixString.read_flt ms <$> MatrixString.get_flt 4
    = Some (MatrixString.scroll_speed ms)
  ∧ (∀ val, (0 ≤ val < 2 ^ 8)%Z → MatrixString.get_color val = None ↔ val ≠ 0%Z)
  ∧ (∀ r v,
       MatrixString.read_flt (MatrixString.write_flt ms r v) r = v
       ∧ (∀ r', r' ≠ r →
            MatrixString.read_flt (MatrixString.write_flt ms r v) r'
            = MatrixString.read_flt ms r')
       ∧ MatrixString.current_str (MatrixString.write_flt ms r v)
         = MatrixString.current_str ms
       ∧ MatrixString.print_colour (MatrixString.write_flt ms r v)
         = MatrixString.print_colour ms).
Proof.
  assert (Hfound : ∀ val, (0 ≤ val < 2 ^ 16)%Z →
            (val = 1 ∧ MatrixString.get_flt val = Some MatrixString.pos_x_ref
             ∨ val = 2 ∧ MatrixString.get_flt val = Some MatrixString.pos_y_ref
             ∨ val = 3 ∧ MatrixString.get_flt val = Some MatrixString.alignment_ref
             ∨ val = 4 ∧ MatrixString.get_flt val = Some MatrixString.scroll_speed_ref
             ∨ ¬ (1 ≤ val ≤ 4) ∧ MatrixString.get_flt val = None)%Z).
  { intros val Hval. unfold MatrixString.get_flt. rewrite Z.mod_small by assumption.
    assert (Hcases : (val = 0 ∨ val = 1 ∨ val = 2 ∨ val = 3 ∨ val = 4 ∨ 5 ≤ val)%Z) by lia.
    destruct Hcases as [-> | [-> | [-> | [-> | [-> | Hbig]]]]]; try tauto.
    - right; right; right; right. split; [lia | reflexivity].
    - right; right; right; right. split; [lia |].
      destruct val as [| [[[q | q |] | [q | q |] |] | [[q | q |] | [q | q |] |] |] | q];
        (reflexivity || lia). }
  split; [| split; [| repeat split]].
  - intros val Hval.
    destruct (Hfound val Hval)
      as [[-> Hr] | [[-> Hr] | [[-> Hr] | [[-> Hr] | [Hout Hr]]]]];
      rewrite Hr; split; first [discriminate | lia | tauto].
  - intros val1 val2 r Hval1 Hval2 Hr1 Hr2.
    destruct (Hfound val1 Hval1)
      as [[-> H1] | [[-> H1] | [[-> H1] | [[-> H1] | [_ H1]]]]];
      destruct (Hfound val2 Hval2)
        as [[-> H2] | [[-> H2] | [[-> H2] | [[-> H2] | [_ H2]]]]];
      first [reflexivity | congruence].
  - intros Hnone. unfold MatrixString.get_color in Hnone.
    rewrite Z.mod_small in Hnone by assumption.
    intros ->. discriminate.
  - intros Hne. unfold MatrixString.get_color. rewrite Z.mod_small by assumption.
    destruct (Z.eqb_spec val 0); [contradiction | reflexivity].
  - now destruct r.
  - intros r' Hne. destruct r, r'; first [reflexivity | congruence].
Qed.

(** X16: while the text scrolls ([|scroll_speed| > 0.1], stored string not
    empty) a [tick] moves [pos_x] by [- scroll_speed * delta_t], or by that
    and the wrap jump [6 * length - 36] on top.  The jump points to the
    left for a text of fewer than six characters, to the right for one of
    more than six, and is nothing for one of six, whose [pos_x] then only
    ever moves by [- scroll_speed * delta_t]; every other member stays as
    it was. *)
Theorem X16_scroll_step {Colour : Type} `{LEDColour Colour}
    (matrix_width delta_t : float) (ms : MatrixString.t Colour) :
  0.1 < fabsf (MatrixString.scroll_speed ms) →
  MatrixString.current_str ms ≠ EmptyString →
  let str_width := inject_Z (Z.of_nat (String.length (MatrixString.current_str ms))) * 6 in
  let shifted := MatrixString.pos_x ms - MatrixString.scroll_speed ms * delta_t in
  let ticked := fst (MatrixString.tick matrix_width delta_t ms) in
  (MatrixString.pos_x ticked = shifted
   ∨ MatrixString.pos_x ticked = shifted + (str_width - 6 * 6))
  ∧ ((String.length (MatrixString.current_str ms) < 6)%nat → str_width - 6 * 6 < 0)
  ∧ ((6 < String.length (MatrixString.current_str ms))%nat → 0 < str_width - 6 * 6)
  ∧ (String.length (MatrixString.current_str ms) = 6%nat →
     MatrixString.pos_x ticked == shifted)
  ∧ MatrixString.current_str ticked = MatrixString.current_str ms
  ∧ MatrixString.pos_y ticked = MatrixString.pos_y ms
  ∧ MatrixString.alignment ticked = MatrixString.alignment ms
  ∧ MatrixString.scroll_speed ticked = MatrixString.scroll_speed ms
  ∧ MatrixString.print_colour ticked = MatrixString.print_colour ms.
Proof.
  intros Hfast Hfull str_width shifted ticked.
  assert (Hactive : flt_gt (fabsf (MatrixString.scroll_speed ms)) 0.1
                    && negb (MatrixString.empty (MatrixString.current_str ms)) = true).
  { apply andb_true_intro. split; [now apply flt_lt_true |].
    destruct (MatrixString.current_str ms); [contradiction | reflexivity]. }
  assert (Hticked : ticked = MatrixString.scroll matrix_width delta_t ms) by reflexivity.
  unfold MatrixString.scroll in Hticked. rewrite Hactive in Hticked.
  cbn [MatrixString.set_pos_x MatrixString.pos_x MatrixString.alignment] in Hticked.
  fold str_width shifted in Hticked.
  assert (Hstep : MatrixString.pos_x ticked = shifted
                  ∨ MatrixString.pos_x ticked = shifted + (str_width - 6 * 6)).
  { rewrite Hticked.
    destruct (flt_lt (shifted + (1 - MatrixString.alignment ms) * str_width) matrix_width);
      [now right | now left]. }
  split; [exact Hstep |]. split; [| split; [| split]].
  - intros Hshort. unfold str_width.
    assert (Hlen : inject_Z (Z.of_nat (String.length (MatrixString.current_str ms)))
                   <= inject_Z 5) by (rewrite <- Zle_Qle; lia).
    change (inject_Z 5) with 5 in Hlen. lra.
  - intros Hlong. unfold str_width.
    assert (Hlen : inject_Z 7
                   <= inject_Z (Z.of_nat (String.length (MatrixString.current_str ms))))
      by (rewrite <- Zle_Qle; lia).
    change (inject_Z 7) with 7 in Hlen. lra.
  - intros Hsix.
    assert (Hwidth : str_width == 6 * 6) by (unfold str_width; rewrite Hsix; reflexivity).
    destruct Hstep as [Heq | Heq]; rewrite Heq; [reflexivity |].
    rewrite Hwidth. ring.
  - rewrite Hticked.
    destruct (flt_lt (shifted + (1 - MatrixString.alignment ms) * str_width) matrix_width);
      repeat split.
Qed.

Lemma X16_scroll_step_witness :
  (MatrixString.pos_x (fst (MatrixString.tick 64 0.5 (sample_text "AB" 12)))
   = 40 - 12 * 0.5
   ∨ MatrixString.pos_x (fst (MatrixString.tick 64 0.5 (sample_text "AB" 12)))
     = 40 - 12 * 0.5 + (inject_Z (Z.of_nat 2) * 6 - 6 * 6))
  ∧ inject_Z (Z.of_nat 2) * 6 - 6 * 6 < 0.
Proof.
  destruct (X16_scroll_step 64 0.5 (sample_text "AB" 12)) as (Hstep & Hjump & _);
    [reflexivity | discriminate |].
  split; [exact Hstep |]. apply Hjump. simpl. lia.
Defined.

(** X17: the string given to [set_string] is the string the next [tick]
    draws (the empty string for a null pointer), with glyphs of 6 by 8 at
    [y = pos_y] in [print_colour]; [set_string] changes no other member,
    [tick] does not change the string, and of two calls of [set_string]
    the later one wins. *)
Theorem X17_set_string_drawn {Colour : Type} `{LEDColour Colour}
    (matrix_width delta_t : float) (ms : MatrixString.t Colour) (str : option string) :
  MatrixString.text (snd (MatrixString.tick matrix_width delta_t
                            (MatrixString.set_string str ms)))
  = default EmptyString str
  ∧ MatrixString.current_str (fst (MatrixString.tick matrix_width delta_t
                                     (MatrixString.set_string str ms)))
    = default EmptyString str
  ∧ (∀ r, MatrixString.read_flt (MatrixString.set_string str ms) r
          = MatrixString.read_flt ms r)
  ∧ (∀ str', MatrixString.set_string str (MatrixString.set_string str' ms)
             = MatrixString.set_string str ms)
  ∧ MatrixString.text_y (snd (MatrixString.tick matrix_width delta_t ms))
    = MatrixString.pos_y ms
  ∧ MatrixString.text (snd (MatrixString.tick matrix_width delta_t ms))
    = MatrixString.current_str ms
  ∧ MatrixString.text_colour (snd (MatrixString.tick matrix_width delta_t ms))
    = MatrixString.print_colour ms
  ∧ MatrixString.glyph_width (snd (MatrixString.tick matrix_width delta_t ms)) = 6%Z
  ∧ MatrixString.glyph_height (snd (MatrixString.tick matrix_width delta_t ms)) = 8%Z.
Proof.
  assert (Hkeeps : ∀ ms' : MatrixString.t Colour,
            MatrixString.current_str (MatrixString.scroll matrix_width delta_t ms')
            = MatrixString.current_str ms'
            ∧ MatrixString.pos_y (MatrixString.scroll matrix_width delta_t ms')
              = MatrixString.pos_y ms'
            ∧ MatrixString.print_colour (MatrixString.scroll matrix_width delta_t ms')
              = MatrixString.print_colour ms').
  { intros ms'. unfold MatrixString.scroll.
    destruct (flt_gt _ 0.1 && _); [| repeat split].
    destruct (flt_lt _ matrix_width); repeat split. }
  unfold MatrixString.tick. cbn [fst snd MatrixString.text MatrixString.text_y
    MatrixString.text_colour MatrixString.glyph_width MatrixString.glyph_height].
  destruct (Hkeeps ms) as (Hstr & Hy & Hcolour).
  destruct (Hkeeps (MatrixString.set_string str ms)) as (Hstr' & _ & _).
  rewrite Hstr, Hy, Hcolour, Hstr'.
  repeat split; try (now destruct str); try (intros []; now destruct str).
Qed.

(** ** How the steps compose *)

(** X19: in the shape that [tick] draws, the column under the iris is at
    most 0.1 high: its top boundary is at least its bottom boundary minus
    0.1, so that it is either skipped or drawn as a notch. *)
Theorem X19_iris_column_is_a_notch {Colour : Type} `{LEDColour Colour} `{EyeTemplates}
    (synch_time : float) (e : Eyes.t Colour) :
  Eyes.templates_sized e →
  (0 ≤ roundf (Eyes.iris_x e) ≤ 10)%Z →
  ∃ total_eye top bottom,
    Eyes.final_shape synch_time e = Some total_eye
    ∧ length total_eye = EYE_SHAPE_SIZE
    ∧ total_eye !! (Z.to_nat (roundf (Eyes.iris_x e)) * 2)%nat = Some top
    ∧ total_eye !! (Z.to_nat (roundf (Eyes.iris_x e)) * 2 + 1)%nat = Some bottom
    ∧ bottom - 0.1 <= top.
Proof.
  intros Hsized Hiris.
  destruct (final_shape_total synch_time e Hsized) as (total_eye & Hshape & Hlen).
  exists total_eye.
  unfold Eyes.final_shape in Hshape.
  destruct (Eyes.blend e) as [blended |] eqn:Hblend; simpl in Hshape; [| discriminate].
  destruct (Eyes.calculate_blink synch_time blended) as [blinked |] eqn:Hblink;
    simpl in Hshape; [| discriminate].
  assert (Hblinked : length blinked = EYE_SHAPE_SIZE).
  { apply calculate_blink_length in Hblink. apply blend_length in Hblend. congruence. }
  destruct (clip_iris_in_range (Eyes.iris_x e) blinked Hblinked Hiris)
    as (top & bottom & Htop & Hbottom & Hclip).
  rewrite Hclip in Hshape. injection Hshape as <-.
  pose proof (lookup_lt_Some _ _ _ Htop) as Hin.
  exists (std_max top (bottom - 0.1)), bottom.
  split.
  { unfold Eyes.final_shape. rewrite Hblend. simpl. rewrite Hblink. simpl. exact Hclip. }
  split; [exact Hlen |].
  split; [now apply list_lookup_insert_eq |].
  split; [rewrite list_lookup_insert_ne by lia; exact Hbottom |].
  destruct (std_max_bounds top (bottom - 0.1)) as (_ & Hge & _). exact Hge.
Qed.

Lemma X19_iris_column_is_a_notch_witness :
  ∃ total_eye top bottom,
    Eyes.final_shape 0 (sample_eyes [0; 1; 0; 0; 0] 3) = Some total_eye
    ∧ total_eye !! 6%nat = Some top
    ∧ total_eye !! 7%nat = Some bottom
    ∧ bottom - 0.1 <= top.
Proof.
  destruct (X19_iris_column_is_a_notch 0 (sample_eyes [0; 1; 0; 0; 0] 3)
              (sample_eyes_sized _ _))
    as (total_eye & top & bottom & Hshape & _ & Htop & Hbottom & Hnotch).
  - vm_compute. split; discriminate.
  - exists total_eye, top, bottom. auto.
Defined.
